(** * forta-node: Fleet Supervisor and Inspection Scheduler

    A shallow embedding of
      - services/containers/supervision.go  (startAgent, getContainerUnsafe,
        addContainerUnsafe, handleAgentRun, handleAgentStop), and
      - services/inspector/inspector.go     (NewInspector, handleScannerBlock,
        inspectionTimeoutWorker, runInspection, the worker of Start, Health),
    followed by the properties of the two components.

    Conventions.  Every collaborator the Go code reaches through an interface
    (the container runtime client, the message bus, the logger, the chain RPC
    client, the inspection routine, the retry clock) is made explicit: runtime
    calls run against a world [W] carried in the service state, and every call,
    publication and log statement is appended to a trace, in program order.
    Go's [error] results become [option error] or [result]; a run-time panic
    (integer division by zero) becomes [None]. *)

From Stdlib Require Import ZArith Lia Ascii.
From stdpp Require Import base option strings list gmap.

Local Open Scope string_scope.
Local Open Scope Z_scope.

(* ===================================================================== *)
(** * Part I.  package containers (services/containers/supervision.go)    *)
(* ===================================================================== *)

(** ** Errors *)

(** [clients.ErrAlreadyExistsInNetwork] is a sentinel compared with [==];
    [ErrStopFailed] is the value built by
    [fmt.Errorf("failed to stop container '%s': %v", container.ID, err)];
    every other error of a collaborator is an [ErrRuntime]. *)
Inductive error : Type :=
| ErrAlreadyExistsInNetwork
| ErrRuntime (msg : string)
| ErrStopFailed (containerID : string) (cause : error).

Inductive result (A : Type) : Type :=
| Ok (a : A)
| Err (e : error).
Arguments Ok {A} a.
Arguments Err {A} e.

(** ** Data *)

(** config.AgentConfig: the fields the supervisor reads. *)
Record AgentConfig : Type := mkAgentConfig {
  Agent_ID : string;
  Agent_Image : string
}.

(** messaging.AgentPayload is [[]config.AgentConfig]. *)
Abbreviation AgentPayload := (list AgentConfig).

(** clients.DockerContainer: the fields the supervisor reads. *)
Record DockerContainer : Type := mkDockerContainer {
  Container_Name : string;
  Container_ID : string
}.

(** clients.DockerContainerConfig, as filled in by startAgent. *)
Record DockerContainerConfig : Type := mkDockerContainerConfig {
  Cfg_Name : string;
  Cfg_Image : string;
  Cfg_NetworkID : string;
  Cfg_LinkNetworkIDs : list string;
  Cfg_Env : gmap string string;
  Cfg_MaxLogFiles : Z;
  Cfg_MaxLogSize : string;
  Cfg_CPUQuota : Z;
  Cfg_Memory : Z
}.

(** What config.GetAgentResourceLimits returns. *)
Record AgentResourceLimits : Type := mkAgentResourceLimits {
  Limits_CPUQuota : Z;
  Limits_Memory : Z
}.

(** The declarations of package config that supervision.go uses and that are
    not part of the embedded files: the two derived names of an agent, the
    environment variable names, the proxy container name and the resolution of
    the resource limits from the static [ResourcesConfig]. *)
Class ConfigPkg (ResourcesConfig : Type) : Type := {
  ContainerName : AgentConfig → string;
  GrpcPort : AgentConfig → string;
  EnvJsonRpcHost : string;
  EnvJsonRpcPort : string;
  EnvAgentGrpcPort : string;
  DockerJSONRPCProxyContainerName : string;
  GetAgentResourceLimits : ResourcesConfig → AgentResourceLimits
}.

(** The container runtime behind [t.client] (interface clients.DockerClient)
    and behind the helper [t.ensureLocalImage]: each call reads and updates the
    state [W] of the runtime and returns what the Go call returns. *)
Class DockerClient (W : Type) : Type := {
  EnsureLocalImage : string → string → bool → W → W * option error;
  CreatePublicNetwork : string → W → W * result string;
  StartContainer : DockerContainerConfig → W → W * result DockerContainer;
  AttachNetwork : string → string → W → W * option error;
  StopContainer : string → W → W * option error
}.

#[export] Instance AgentConfig_eq_dec : EqDecision AgentConfig.
Proof. solve_decision. Defined.

(** Bus subjects (package messaging). *)
Inductive Subject : Type :=
| SubjectAgentsActionRun
| SubjectAgentsActionStop
| SubjectAgentsStatusRunning
| SubjectAgentsStatusStopped
| SubjectScannerBlock
| SubjectInspectionDone.

#[export] Instance Subject_eq_dec : EqDecision Subject.
Proof. solve_decision. Defined.

(** One constructor per log statement of supervision.go, with the values it
    formats. *)
Inductive LogEntry : Type :=
| LogHandleAgentRun (payloadLen : nat)
| LogAlreadyRunning (containerName : string)
| LogFailedToStartAgent (err : error)
| LogStopSkipped (containerName : string)
| LogStopped (containerName : string).

(** The observable effects of the supervisor, in program order. *)
Inductive Event : Type :=
| CallEnsureLocalImage (name ref : string) (requireAuth : bool)
| CallCreatePublicNetwork (name : string)
| CallStartContainer (cfg : DockerContainerConfig)
| CallAttachNetwork (containerID networkID : string)
| CallStopContainer (containerID : string)
| Publish (subject : Subject) (payload : AgentPayload)
| Log (entry : LogEntry).

(** TxNodeService: the Fleet Table [containers], the two infrastructure
    containers, the static policies, the runtime [world] behind [t.client] and
    the [trace] of effects.  The mutex [t.mu] is held for the whole of either
    handler, so each handler is one atomic state transformer. *)
Record TxNodeService (W ResourcesConfig : Type) : Type := mkTxNodeService {
  world : W;
  containers : list DockerContainer;
  scannerContainer : DockerContainer;
  jsonRpcContainer : DockerContainer;
  maxLogFiles : Z;
  maxLogSize : string;
  resourcesConfig : ResourcesConfig;
  trace : list Event
}.
Arguments mkTxNodeService {W ResourcesConfig}.
Arguments world {W ResourcesConfig}.
Arguments containers {W ResourcesConfig}.
Arguments scannerContainer {W ResourcesConfig}.
Arguments jsonRpcContainer {W ResourcesConfig}.
Arguments maxLogFiles {W ResourcesConfig}.
Arguments maxLogSize {W ResourcesConfig}.
Arguments resourcesConfig {W ResourcesConfig}.
Arguments trace {W ResourcesConfig}.

Section Supervision.
Context {W RC : Type} `{!DockerClient W} `{!ConfigPkg RC}.

Abbreviation Service := (TxNodeService W RC).

(** A method with receiver [t] that may return an error. *)
Definition M (A : Type) : Type := Service → Service * result A.

#[export] Instance M_ret : MRet M := λ A a t, (t, Ok a).
#[export] Instance M_bind : MBind M := λ A B f m t,
  match m t with
  | (t', Ok a) => f a t'
  | (t', Err e) => (t', Err e)
  end.

Definition set_world (w : W) (t : Service) : Service :=
  mkTxNodeService w (containers t) (scannerContainer t) (jsonRpcContainer t)
    (maxLogFiles t) (maxLogSize t) (resourcesConfig t) (trace t).

Definition set_containers (cs : list DockerContainer) (t : Service) : Service :=
  mkTxNodeService (world t) cs (scannerContainer t) (jsonRpcContainer t)
    (maxLogFiles t) (maxLogSize t) (resourcesConfig t) (trace t).

Definition emit (ev : Event) (t : Service) : Service :=
  mkTxNodeService (world t) (containers t) (scannerContainer t)
    (jsonRpcContainer t) (maxLogFiles t) (maxLogSize t) (resourcesConfig t)
    (trace t ++ [ev]).

(** A call of the runtime: recorded in the trace, run against the world. *)
Definition call {A : Type} (ev : Event) (op : W → W * A) (t : Service)
  : Service * A :=
  let '(w', r) := op (world t) in (set_world w' (emit ev t), r).

(** A Go [error] result as a computation that fails on non-nil. *)
Definition check (c : Service → Service * option error) : M () := λ t,
  match c t with
  | (t', None) => (t', Ok ())
  | (t', Some e) => (t', Err e)
  end.

Definition get : M Service := λ t, (t, Ok t).

Definition ensureLocalImage (name ref : string) (requireAuth : bool) : M () :=
  check (call (CallEnsureLocalImage name ref requireAuth)
              (EnsureLocalImage name ref requireAuth)).

Definition client_CreatePublicNetwork (name : string) : M string :=
  call (CallCreatePublicNetwork name) (CreatePublicNetwork name).

Definition client_StartContainer (cfg : DockerContainerConfig)
  : M DockerContainer :=
  call (CallStartContainer cfg) (StartContainer cfg).

Definition client_AttachNetwork (containerID networkID : string)
  : Service → Service * option error :=
  call (CallAttachNetwork containerID networkID)
       (AttachNetwork containerID networkID).

Definition client_StopContainer (containerID : string)
  : Service → Service * option error :=
  call (CallStopContainer containerID) (StopContainer containerID).

(** func (t *TxNodeService) getContainerUnsafe(name string): the first record
    with that name. *)
Fixpoint lookupContainer (name : string) (cs : list DockerContainer)
  : option DockerContainer :=
  match cs with
  | [] => None
  | container :: rest =>
      if String.eqb (Container_Name container) name then Some container
      else lookupContainer name rest
  end.

Definition getContainerUnsafe (name : string) (t : Service)
  : option DockerContainer :=
  lookupContainer name (containers t).

(** func (t *TxNodeService) addContainerUnsafe(container ...) *)
Definition addContainerUnsafe (container : list DockerContainer) : M () :=
  λ t, (set_containers (containers t ++ container) t, Ok ()).

(** The loop of startAgent over the scanner and the JSON-RPC proxy:
    "already attached" continues, any other error returns. *)
Fixpoint attachNetworks (containerIDs : list string) (nwID : string) : M () :=
  match containerIDs with
  | [] => mret ()
  | containerID :: rest => λ t,
      match client_AttachNetwork containerID nwID t with
      | (t', Some ErrAlreadyExistsInNetwork) => attachNetworks rest nwID t'
      | (t', Some e) => (t', Err e)
      | (t', None) => attachNetworks rest nwID t'
      end
  end.

(** The [clients.DockerContainerConfig] literal of startAgent. *)
Definition agentContainerConfig (agent : AgentConfig) (nwID : string)
    (t : Service) : DockerContainerConfig :=
  let limits := GetAgentResourceLimits (resourcesConfig t) in
  {| Cfg_Name := ContainerName agent;
     Cfg_Image := Agent_Image agent;
     Cfg_NetworkID := nwID;
     Cfg_LinkNetworkIDs := [];
     Cfg_Env := <[EnvAgentGrpcPort := GrpcPort agent]>
                (<[EnvJsonRpcPort := "8545"]>
                (<[EnvJsonRpcHost := DockerJSONRPCProxyContainerName]> ∅));
     Cfg_MaxLogFiles := maxLogFiles t;
     Cfg_MaxLogSize := maxLogSize t;
     Cfg_CPUQuota := Limits_CPUQuota limits;
     Cfg_Memory := Limits_Memory limits |}.

(** startAgent up to and including [t.client.StartContainer]: the image, the
    private network and the container.  It returns the network ID and the
    started container. *)
Definition startAgentContainer (agent : AgentConfig)
  : M (string * DockerContainer) :=
  ensureLocalImage ("agent " +:+ Agent_ID agent) (Agent_Image agent) true ;;
  nwID ← client_CreatePublicNetwork (ContainerName agent) ;
  t ← get ;
  agentContainer ← client_StartContainer (agentContainerConfig agent nwID t) ;
  mret (nwID, agentContainer).

(** func (t *TxNodeService) startAgent(agent config.AgentConfig) error *)
Definition startAgent (agent : AgentConfig) : M () :=
  '(nwID, agentContainer) ← startAgentContainer agent ;
  t ← get ;
  attachNetworks
    [Container_ID (scannerContainer t); Container_ID (jsonRpcContainer t)]
    nwID ;;
  addContainerUnsafe [agentContainer].

(** The body of the [for _, agent := range payload] loop of handleAgentRun. *)
Fixpoint runAgents (payload : AgentPayload) (t : Service) : Service :=
  match payload with
  | [] => t
  | agent :: rest =>
      match getContainerUnsafe (ContainerName agent) t with
      | Some _ =>
          runAgents rest
            (emit (Publish SubjectAgentsStatusRunning [agent])
               (emit (Log (LogAlreadyRunning (ContainerName agent))) t))
      | None =>
          match startAgent agent t with
          | (t', Err err) =>
              runAgents rest (emit (Log (LogFailedToStartAgent err)) t')
          | (t', Ok _) =>
              runAgents rest
                (emit (Publish SubjectAgentsStatusRunning [agent]) t')
          end
      end
  end.

(** func (t *TxNodeService) handleAgentRun(payload) error *)
Definition handleAgentRun (payload : AgentPayload) : M () := λ t,
  (runAgents payload (emit (Log (LogHandleAgentRun (length payload))) t),
   Ok ()).

(** Go's [stopped[id]] on a [map[string]bool]: false when the key is absent. *)
Definition isStopped (stopped : gmap string bool) (id : string) : bool :=
  default false (stopped !! id).

(** The first loop of handleAgentStop; it returns the [stopped] map. *)
Fixpoint stopAgents (payload : AgentPayload) (stopped : gmap string bool)
  : M (gmap string bool) :=
  match payload with
  | [] => mret stopped
  | agentCfg :: rest => λ t,
      match getContainerUnsafe (ContainerName agentCfg) t with
      | None =>
          stopAgents rest stopped
            (emit (Log (LogStopSkipped (ContainerName agentCfg))) t)
      | Some container =>
          match client_StopContainer (Container_ID container) t with
          | (t', Some err) =>
              (t', Err (ErrStopFailed (Container_ID container) err))
          | (t', None) =>
              stopAgents rest (<[Container_ID container := true]> stopped)
                (emit (Log (LogStopped (ContainerName agentCfg))) t')
          end
      end
  end.

(** func (t *TxNodeService) handleAgentStop(payload) error *)
Definition handleAgentStop (payload : AgentPayload) : M () := λ t,
  match stopAgents payload ∅ t with
  | (t', Err err) => (t', Err err)
  | (t', Ok stopped) =>
      let remainingContainers :=
        List.filter
          (λ container, negb (isStopped stopped (Container_ID container)))
          (containers t') in
      let t'' := set_containers remainingContainers t' in
      if (0 <? length payload)%nat
      then (emit (Publish SubjectAgentsStatusStopped payload) t'', Ok ())
      else (t'', Ok ())
  end.

(** ** Observations on a trace *)

(** The events a handler added: those of [t'] that were not yet in [t]. *)
Definition new_events (t t' : Service) : list Event :=
  drop (length (trace t)) (trace t').

Definition publications (evs : list Event) : list (Subject * AgentPayload) :=
  omap (λ ev, match ev with Publish s p => Some (s, p) | _ => None end) evs.

Definition startCalls (evs : list Event) : list DockerContainerConfig :=
  omap (λ ev, match ev with CallStartContainer c => Some c | _ => None end) evs.

Definition attachCalls (evs : list Event) : list (string * string) :=
  omap (λ ev, match ev with
              | CallAttachNetwork c n => Some (c, n)
              | _ => None
              end) evs.

Definition stopCalls (evs : list Event) : list string :=
  omap (λ ev, match ev with CallStopContainer id => Some id | _ => None end) evs.

Definition logs (evs : list Event) : list LogEntry :=
  omap (λ ev, match ev with Log e => Some e | _ => None end) evs.

(** The names recorded in the Fleet Table. *)
Definition tableNames (t : Service) : list string :=
  Container_Name <$> containers t.

(** An attachment result that startAgent does not treat as a failure. *)
Definition tolerated (r : option error) : bool :=
  match r with
  | None | Some ErrAlreadyExistsInNetwork => true
  | Some _ => false
  end.

(** The error that makes startAgent give up during the two attachments whose
    results are [r1] (scanner) and [r2] (JSON-RPC proxy), if any. *)
Definition attachFailure (r1 r2 : option error) : option error :=
  if tolerated r1 then (if tolerated r2 then None else r2) else r1.

(** A runtime none of whose start-up calls fails, and whose StartContainer
    returns a handle carrying the requested name. *)
Definition ReliableRuntime : Prop :=
  (∀ name ref auth w, (EnsureLocalImage name ref auth w).2 = None) ∧
  (∀ name w, ∃ nwID, (CreatePublicNetwork name w).2 = Ok nwID) ∧
  (∀ cfg w, ∃ c, (StartContainer cfg w).2 = Ok c
                 ∧ Container_Name c = Cfg_Name cfg) ∧
  (∀ containerID nwID w, tolerated (AttachNetwork containerID nwID w).2 = true).

(** The "run agents" message handled twice in sequence. *)
Definition runTwice (payload : AgentPayload) (t : Service) : Service :=
  (handleAgentRun payload (handleAgentRun payload t).1).1.

(** The "running" status of one descriptor, as handleAgentRun publishes it. *)
Definition runningStatus (a : AgentConfig) : Subject * AgentPayload :=
  (SubjectAgentsStatusRunning, [a]).

(** How many StartContainer calls among [evs] are for the container name of
    [d], and how many publications among [evs] are the "running" status of
    [d]. *)
Definition startsFor (d : AgentConfig) (evs : list Event) : nat :=
  length (filter (λ cfg, Cfg_Name cfg = ContainerName d) (startCalls evs)).

Definition runningFor (d : AgentConfig) (evs : list Event) : nat :=
  length (filter (λ p, p = runningStatus d) (publications evs)).


(** Idempotence of "run" in the words of the specification: over the two
    runs, one StartContainer call and two "running" publications for every
    descriptor of the batch, and at most one record per container name. *)
Definition RunTwiceClaim (payload : AgentPayload) (t : Service) : Prop :=
  let evs := new_events t (runTwice payload t) in
  (∀ d, d ∈ payload → startsFor d evs = 1%nat ∧ runningFor d evs = 2%nat) ∧
  NoDup (tableNames (runTwice payload t)).

End Supervision.

(* ===================================================================== *)
(** * Part II.  package inspector (services/inspector/inspector.go)       *)
(* ===================================================================== *)

(** ** Machine integers and time *)

(** [uint64(x)]: conversion to, and wrap-around in, 64-bit unsigned. *)
Definition uint64 (x : Z) : Z := x mod 2 ^ 64.

(** The range of Go's [int] (64 bits), the type of [inspectEvery]. *)
Definition int_range (x : Z) : Prop := - 2 ^ 63 <= x < 2 ^ 63.

Definition uint64_range (x : Z) : Prop := 0 <= x < 2 ^ 64.

(** [a % b] on uint64: a zero divisor is a run-time panic. *)
Definition go_rem (a b : Z) : option Z :=
  if b =? 0 then None else Some (a mod b).

(** Instants and durations are counted in nanoseconds. *)
Definition Second : Z := 1000000000.
Definition Minute : Z := 60 * Second.

(** const blockEventWaitTimeout = time.Minute * 10 *)
Definition blockEventWaitTimeout : Z := Minute * 10.

(** ** The pending-inspection channel *)

(** A buffered [chan uint64]: its capacity and the values waiting in it. *)
Record chan : Type := mkChan {
  chan_cap : nat;
  chan_buf : list Z
}.

(** [make(chan uint64, n)] *)
Definition make_chan (n : nat) : chan := mkChan n [].

Definition chan_full (ch : chan) : bool :=
  (chan_cap ch <=? length (chan_buf ch))%nat.

(** [ch <- v]: [None] when the buffer is full and the sender has to wait. *)
Definition chan_send (v : Z) (ch : chan) : option chan :=
  if chan_full ch then None
  else Some (mkChan (chan_cap ch) (chan_buf ch ++ [v])).

(** [<-ch]: [None] when the buffer is empty and the receiver has to wait. *)
Definition chan_recv (ch : chan) : option (Z * chan) :=
  match chan_buf ch with
  | [] => None
  | v :: rest => Some (v, mkChan (chan_cap ch) rest)
  end.

(** ** Data *)

(** messaging.ScannerPayload: the field the handler reads. *)
Record ScannerPayload : Type := mkScannerPayload {
  LatestBlockInput : Z
}.

(** InspectorConfig with the fields of config.Config that inspector.go reads. *)
Record InspectorConfig : Type := mkInspectorConfig {
  Scan_JsonRpc_Url : string;
  Trace_JsonRpc_Url : string;
  ProxyHost : string;
  ProxyPort : string;
  LocalMode_Enable : bool;
  LocalMode_EnableInspection : bool;
  InspectionConfig_BlockInterval : option Z
}.

(** inspect.InspectionConfig, as filled in by runInspection. *)
Record InspectionConfig : Type := mkInspectionConfig {
  ScanAPIURL : string;
  ProxyAPIURL : string;
  TraceAPIURL : string;
  BlockNumber : Z;
  CheckTrace : bool
}.

(** health.ErrorTracker of forta-core-go, reduced to the cell it guards: the
    latest error given to its [Set], nil in the zero value. *)
Record ErrorTracker : Type := mkErrorTracker {
  tracker_err : option error
}.

(** A health report: its name and the error it carries, if any. *)
Record Report : Type := mkReport {
  Report_Name : string;
  Report_Details : option error
}.

Definition GetReport (name : string) (et : ErrorTracker) : Report :=
  mkReport name (tracker_err et).

(** What the chain RPC answers when the watchdog asks for the block number:
    [rpc.DialContext] fails, [BlockNumber] fails, or a block number. *)
Inductive RpcReply : Type :=
| DialFailed (err : error)
| BlockNumberFailed (err : error)
| BlockNumberIs (blockNum : Z).

(** Where the goroutine of inspectionTimeoutWorker stands: in the [select],
    or inside one of its three [ins.inspectCh <- v] statements. *)
Inductive WatchdogPC : Type :=
| AtSelect
| AtSend (v : Z).

Section Inspection.
Context {Results Proto : Type}.
(** transform.ToProtoInspectionResults *)
Context (ToProtoInspectionResults : Results → Proto).

(** One constructor per log statement of inspector.go. *)
Inductive InspectorLog : Type :=
| LogInspectionDisabled
| LogTimeoutTickerFailed (err : error)
| LogFinallyFailed (err : error) (inspectingAtBlock : Z)
| LogInspectionDone (results : Results)
| LogInspectionErrors (err : error)
| LogTriggering (triggeredAtBlock inspectingAtBlock : Z)
| LogTriggered (triggeredAtBlock inspectingAtBlock : Z)
| LogAlreadyBusy (triggeredAtBlock inspectingAtBlock : Z).

(** What the inspector does to the bus and to the logger, in program order. *)
Inductive InspectorEvent : Type :=
| PublishProto (subject : Subject) (msg : Proto)
| Logged (entry : InspectorLog).

(** type Inspector struct; [msgClient] and the logger are the [bus] trace. *)
Record Inspector : Type := mkInspector {
  cfg : InspectorConfig;
  bus : list InspectorEvent;
  lastErr : ErrorTracker;
  inspectEvery : Z;
  inspectTrace : bool;
  inspectCh : chan;
  latestBlockEventTime : Z
}.

Definition set_bus (b : list InspectorEvent) (ins : Inspector) : Inspector :=
  mkInspector (cfg ins) b (lastErr ins) (inspectEvery ins) (inspectTrace ins)
    (inspectCh ins) (latestBlockEventTime ins).

Definition set_inspectCh (ch : chan) (ins : Inspector) : Inspector :=
  mkInspector (cfg ins) (bus ins) (lastErr ins) (inspectEvery ins)
    (inspectTrace ins) ch (latestBlockEventTime ins).

Definition set_latestBlockEventTime (now : Z) (ins : Inspector) : Inspector :=
  mkInspector (cfg ins) (bus ins) (lastErr ins) (inspectEvery ins)
    (inspectTrace ins) (inspectCh ins) now.

Definition record (ev : InspectorEvent) (ins : Inspector) : Inspector :=
  set_bus (bus ins ++ [ev]) ins.

(** func NewInspector(ctx, cfg): [chainInterval] and [chainEnableTrace] are
    the [InspectionInterval] and [EnableTrace] of
    [config.GetChainSettings(cfg.Config.ChainID)]. *)
Definition NewInspector (chainInterval : Z) (chainEnableTrace : bool)
    (cfg : InspectorConfig) : Inspector :=
  let inspectionInterval :=
    match InspectionConfig_BlockInterval cfg with
    | Some blockInterval => blockInterval
    | None => chainInterval
    end in
  {| cfg := cfg;
     bus := [];
     lastErr := mkErrorTracker None;
     inspectEvery := inspectionInterval;
     inspectTrace := chainEnableTrace;
     inspectCh := make_chan 1;
     latestBlockEventTime := 0 |}.

(** func (ins *Inspector) Start() error, its local-mode switch.  The result tells
    whether the handler was registered and the two goroutines (the watchdog,
    [watchdogStep] below, and the worker, [inspectionWorker] below) were
    started; the Go result is nil on both paths. *)
Definition Start (ins : Inspector) : Inspector * bool :=
  if LocalMode_Enable (cfg ins) && negb (LocalMode_EnableInspection (cfg ins))
  then (record (Logged LogInspectionDisabled) ins, false)
  else (ins, true).

(** func (ins *Inspector) handleScannerBlock(payload) error, at instant
    [now].  The handler always returns nil; [None] is the division panic of
    [%].  The push is the [select] with a [default] branch: a send that
    cannot complete is given up and logged as "already busy". *)
Definition handleScannerBlock (now : Z) (payload : ScannerPayload)
    (ins : Inspector) : option Inspector :=
  let ins := set_latestBlockEventTime now ins in
  cond ← (if 0 <? LatestBlockInput payload
          then r ← go_rem (LatestBlockInput payload)
                          (uint64 (inspectEvery ins)) ;
               Some (r =? 0)
          else Some false) ;
  if cond : bool then
    let inspectionBlockNum :=
      uint64 (LatestBlockInput payload - uint64 (inspectEvery ins)) in
    let triggered := LatestBlockInput payload in
    let ins := record (Logged (LogTriggering triggered inspectionBlockNum)) ins in
    match chan_send inspectionBlockNum (inspectCh ins) with
    | Some ch =>
        Some (record (Logged (LogTriggered triggered inspectionBlockNum))
                (set_inspectCh ch ins))
    | None =>
        Some (record (Logged (LogAlreadyBusy triggered inspectionBlockNum)) ins)
    end
  else Some ins.

(** The body of [case <-t.C] of inspectionTimeoutWorker up to its channel
    send: the value to send, if any; [None] is the division panic. *)
Definition timeoutDecision (now : Z) (rpc : RpcReply) (ins : Inspector)
  : option (option Z) :=
  if latestBlockEventTime ins + blockEventWaitTimeout <? now then
    match rpc with
    | DialFailed _ => Some (Some 0)
    | BlockNumberFailed _ => Some (Some 0)
    | BlockNumberIs blockNum =>
        r ← go_rem blockNum (uint64 (inspectEvery ins)) ;
        Some (if r =? 0 then Some blockNum else None)
    end
  else Some None.

(** The statement [ins.inspectCh <- v] of the watchdog: a plain send, outside
    any [select].  It completes when the buffer has room and otherwise leaves
    the goroutine inside the statement. *)
Definition watchdogSend (v : Z) (ins : Inspector) : WatchdogPC * Inspector :=
  match chan_send v (inspectCh ins) with
  | Some ch => (AtSelect, set_inspectCh ch ins)
  | None => (AtSend v, ins)
  end.

(** func (ins *Inspector) inspectionTimeoutWorker(ctx) error, one scheduling
    of its goroutine: at the [select] it takes a tick (at instant [now], the
    chain answering [rpc]); inside a send it tries to complete the send. *)
Definition watchdogStep (now : Z) (rpc : RpcReply) (pc : WatchdogPC)
    (ins : Inspector) : option (WatchdogPC * Inspector) :=
  match pc with
  | AtSend v => Some (watchdogSend v ins)
  | AtSelect =>
      d ← timeoutDecision now rpc ins ;
      match d with
      | Some v => Some (watchdogSend v ins)
      | None => Some (AtSelect, ins)
      end
  end.

(** The [inspect.InspectionConfig] literal of runInspection. *)
Definition inspectionConfig (blockNum : Z) (ins : Inspector)
  : InspectionConfig :=
  {| ScanAPIURL := Scan_JsonRpc_Url (cfg ins);
     ProxyAPIURL :=
       "http://" +:+ ProxyHost (cfg ins) +:+ ":" +:+ ProxyPort (cfg ins);
     TraceAPIURL := Trace_JsonRpc_Url (cfg ins);
     BlockNumber := blockNum;
     CheckTrace := inspectTrace ins |}.

(** func (ins *Inspector) runInspection(ctx, blockNum) error.  [Inspect] is
    [inspect.Inspect] at this call; the results are published before the
    error is looked at. *)
Definition runInspection
    (Inspect : InspectionConfig → Results * option error)
    (blockNum : Z) (ins : Inspector) : Inspector * option error :=
  let '(results, err) := Inspect (inspectionConfig blockNum ins) in
  let ins :=
    record (PublishProto SubjectInspectionDone
              (ToProtoInspectionResults results)) ins in
  let ins := record (Logged (LogInspectionDone results)) ins in
  match err with
  | Some e => (record (Logged (LogInspectionErrors e)) ins, Some e)
  | None => (ins, None)
  end.

(** backoff.Retry(operation, b): run the operation; on nil return nil; on an
    error ask the policy for the next delay and either give up with that error
    or sleep and run the operation again.  The policy of Start (first delay
    3 s, delays capped at 30 s, elapsed-time ceiling 5 min) is driven by the
    wall clock; [granted] is the number of retries it grants before the
    ceiling has elapsed, and [attempt] counts the attempts made so far. *)
Fixpoint Retry {S : Type} (operation : nat → S → S * option error)
    (granted attempt : nat) (s : S) : S * option error :=
  match operation attempt s with
  | (s', None) => (s', None)
  | (s', Some err) =>
      match granted with
      | O => (s', Some err)
      | Datatypes.S g => Retry operation g (Datatypes.S attempt) s'
      end
  end.

(** The second goroutine of Start, one scheduling: receive a block number
    from the channel and run the inspection under the retry policy.
    [Inspect attempt] is the inspection routine at the attempt of that
    index. *)
Definition inspectionWorker
    (Inspect : nat → InspectionConfig → Results * option error)
    (granted : nat) (ins : Inspector) : Inspector :=
  match chan_recv (inspectCh ins) with
  | None => ins
  | Some (blockNum, ch) =>
      match Retry (λ attempt, runInspection (Inspect attempt) blockNum)
                  granted 0 (set_inspectCh ch ins) with
      | (ins', Some err) => record (Logged (LogFinallyFailed err blockNum)) ins'
      | (ins', None) => ins'
      end
  end.

(** func (ins *Inspector) Health() health.Reports *)
Definition Health (ins : Inspector) : list Report :=
  [GetReport "last-error" (lastErr ins)].

(** ** Observations on the bus *)

(** The events a step added: those of [ins'] that were not yet in [ins]. *)
Definition bus_since (ins ins' : Inspector) : list InspectorEvent :=
  drop (length (bus ins)) (bus ins').

(** The messages published to "inspection:done". *)
Definition inspectionsDone (evs : list InspectorEvent) : list Proto :=
  omap (λ ev, match ev with
              | PublishProto SubjectInspectionDone msg => Some msg
              | _ => None
              end) evs.

Definition inspectorLogs (evs : list InspectorEvent) : list InspectorLog :=
  omap (λ ev, match ev with Logged e => Some e | _ => None end) evs.

(** What one call of runInspection adds to the bus, given the outcome of the
    inspection routine. *)
Definition attemptEvents (outcome : Results * option error)
  : list InspectorEvent :=
  [PublishProto SubjectInspectionDone (ToProtoInspectionResults outcome.1);
   Logged (LogInspectionDone outcome.1)]
  ++ match outcome.2 with
     | Some e => [Logged (LogInspectionErrors e)]
     | None => []
     end.

(** ** The retry properties in the words of the specification *)

(** Every attempt failing until the retry budget is spent: nothing is
    published to "inspection:done" for the request. *)
Definition AllFailClaim
    (Inspect : nat → InspectionConfig → Results * option error)
    (granted : nat) (ins : Inspector) : Prop :=
  ∀ blockNum ch, chan_recv (inspectCh ins) = Some (blockNum, ch) →
    (∀ k, (k ≤ granted)%nat →
          (Inspect k (inspectionConfig blockNum ins)).2 ≠ None) →
    inspectionsDone (bus_since ins (inspectionWorker Inspect granted ins)) = [].

(** Two failing attempts and a third that succeeds: one publication, of the
    successful result. *)
Definition ThirdSucceedsClaim
    (Inspect : nat → InspectionConfig → Results * option error)
    (granted : nat) (ins : Inspector) : Prop :=
  ∀ blockNum ch r0 e0 r1 e1 r2,
    chan_recv (inspectCh ins) = Some (blockNum, ch) →
    (2 ≤ granted)%nat →
    Inspect 0%nat (inspectionConfig blockNum ins) = (r0, Some e0) →
    Inspect 1%nat (inspectionConfig blockNum ins) = (r1, Some e1) →
    Inspect 2%nat (inspectionConfig blockNum ins) = (r2, None) →
    inspectionsDone (bus_since ins (inspectionWorker Inspect granted ins))
      = [ToProtoInspectionResults r2].

(** The terminal error of an exhausted retry in the "last-error" report. *)
Definition HealthRecordsClaim
    (Inspect : nat → InspectionConfig → Results * option error)
    (granted : nat) (ins : Inspector) : Prop :=
  ∀ blockNum ch e, chan_recv (inspectCh ins) = Some (blockNum, ch) →
    (∀ k, (k ≤ granted)%nat →
          (Inspect k (inspectionConfig blockNum ins)).2 ≠ None) →
    (Inspect granted (inspectionConfig blockNum ins)).2 = Some e →
    Health (inspectionWorker Inspect granted ins)
      = [mkReport "last-error" (Some e)].

(** The watchdog push in the words of the specification: with the channel
    full the value is dropped and the watchdog is back in its [select]. *)
Definition WatchdogDropsClaim (now : Z) (rpc : RpcReply) (ins : Inspector)
  : Prop :=
  ∀ v, timeoutDecision now rpc ins = Some (Some v) →
    chan_full (inspectCh ins) = true →
    watchdogStep now rpc AtSelect ins = Some (AtSelect, ins).

End Inspection.

(* ===================================================================== *)
(** * Part III.  Test doubles                                             *)
(* ===================================================================== *)

(** A container runtime for the examples.  Its state is the list of the IDs
    of the running containers; attaching a container of [attachFails] to a
    network and stopping a container of [stopFails] fail, attaching a
    container of [attachExists] reports "already attached". *)
Definition fakeClient (attachFails attachExists stopFails : list string)
  : DockerClient (list string) := {|
  EnsureLocalImage _ _ _ w := (w, None);
  CreatePublicNetwork name w := (w, Ok ("nw-" +:+ name));
  StartContainer cfg w :=
    ((w ++ ["id-" +:+ Cfg_Name cfg])%list,
     Ok (mkDockerContainer (Cfg_Name cfg) ("id-" +:+ Cfg_Name cfg)));
  AttachNetwork containerID _ w :=
    (w, if existsb (String.eqb containerID) attachFails
        then Some (ErrRuntime "attach failed")
        else if existsb (String.eqb containerID) attachExists
             then Some ErrAlreadyExistsInNetwork
             else None);
  StopContainer id w :=
    if existsb (String.eqb id) stopFails
    then (w, Some (ErrRuntime "stop failed"))
    else (List.filter (λ r, negb (String.eqb r id)) w, None)
|}.

Definition fakeConfig : ConfigPkg () := {|
  ContainerName agent := "forta-agent-" +:+ Agent_ID agent;
  GrpcPort _ := "50051";
  EnvJsonRpcHost := "JSON_RPC_HOST";
  EnvJsonRpcPort := "JSON_RPC_PORT";
  EnvAgentGrpcPort := "AGENT_GRPC_PORT";
  DockerJSONRPCProxyContainerName := "forta-json-rpc";
  GetAgentResourceLimits _ := mkAgentResourceLimits 0 0
|}.

Definition scanner0 : DockerContainer :=
  mkDockerContainer "forta-scanner" "id-scanner".
Definition jsonRpc0 : DockerContainer :=
  mkDockerContainer "forta-json-rpc" "id-json-rpc".

Definition agentA : AgentConfig := mkAgentConfig "A" "image-a".
Definition agentB : AgentConfig := mkAgentConfig "B" "image-b".

Definition containerA : DockerContainer :=
  mkDockerContainer "forta-agent-A" "id-forta-agent-A".
Definition containerB : DockerContainer :=
  mkDockerContainer "forta-agent-B" "id-forta-agent-B".

(** A supervisor with the given Fleet Table, all of it running. *)
Definition serviceWith (cs : list DockerContainer)
  : TxNodeService (list string) () :=
  mkTxNodeService (Container_ID <$> cs) cs scanner0 jsonRpc0 10 "50m" () [].

(** The handlers on the test runtime. *)
Definition stopOn (stopFails : list string) (payload : AgentPayload)
    (t : TxNodeService (list string) ())
  : TxNodeService (list string) () * result () :=
  @handleAgentStop _ _ (fakeClient [] [] stopFails) fakeConfig payload t.

Definition startOn (attachFails attachExists : list string)
    (agent : AgentConfig) (t : TxNodeService (list string) ())
  : TxNodeService (list string) () * result () :=
  @startAgent _ _ (fakeClient attachFails attachExists []) fakeConfig agent t.

Definition runOn (attachFails attachExists : list string)
    (payload : AgentPayload) (t : TxNodeService (list string) ())
  : TxNodeService (list string) () :=
  @runAgents _ _ (fakeClient attachFails attachExists []) fakeConfig payload t.

Definition runTwiceOn (attachFails : list string) (payload : AgentPayload)
    (t : TxNodeService (list string) ()) : TxNodeService (list string) () :=
  @runTwice _ _ (fakeClient attachFails [] []) fakeConfig payload t.

(** An inspector for the examples: inspection results are strings, published
    as they are; cadence 10 from the chain settings, no override. *)
Definition inspectorConfig0 : InspectorConfig :=
  mkInspectorConfig "http://scan:8545" "http://trace:8545" "forta-proxy" "8545"
    false false None.

Definition inspector10 : @Inspector string string :=
  NewInspector 10 false inspectorConfig0.

(** The same inspector with block [b] waiting in the channel. *)
Definition inspectorPending (b : Z) : @Inspector string string :=
  set_inspectCh (mkChan 1 [b]) inspector10.

(** An inspection routine that fails at every attempt, and one that fails at
    the first two attempts and succeeds from the third on. *)
Definition inspectAlwaysFails (attempt : nat) (c : InspectionConfig)
  : string * option error :=
  ("partial", Some (ErrRuntime "scan api unreachable")).

Definition inspectThirdSucceeds (attempt : nat) (c : InspectionConfig)
  : string * option error :=
  if (attempt <? 2)%nat
  then ("partial", Some (ErrRuntime "scan api unreachable"))
  else ("complete", None).

(* ===================================================================== *)
(** * Part III-b.  The rest of the embedded files                         *)
(* ===================================================================== *)

Section SupervisionDispatch.
Context {W RC : Type} `{!DockerClient W} `{!ConfigPkg RC}.

(** func (t *TxNodeService) registerMessageHandlers(): handleAgentRun is
    subscribed to the "run agents" subject and handleAgentStop to the "stop
    agents" subject; a message on any other subject reaches no handler of the
    service. *)
Definition deliver (subject : Subject) (payload : AgentPayload)
  : M (W := W) (RC := RC) () :=
  match subject with
  | SubjectAgentsActionRun => handleAgentRun payload
  | SubjectAgentsActionStop => handleAgentStop payload
  | _ => mret ()
  end.

(** A sequence of control messages, handled one after the other; the error
    a handler returns goes to the bus client, the service goes on with the
    state the handler left. *)
Fixpoint deliverAll (msgs : list (Subject * AgentPayload))
    (t : TxNodeService W RC) : TxNodeService W RC :=
  match msgs with
  | [] => t
  | (subject, payload) :: rest => deliverAll rest (deliver subject payload t).1
  end.

(** The errors of the "failed to start agent" log lines. *)
Definition startFailures (evs : list Event) : list error :=
  omap (λ ev, match ev with
              | Log (LogFailedToStartAgent err) => Some err
              | _ => None
              end) evs.

(** The IDs of the records that the lookups of a stop request find, in the
    order of the request. *)
Definition foundIDs (payload : AgentPayload) (t : TxNodeService W RC)
  : list string :=
  omap (λ a, Container_ID <$> getContainerUnsafe (ContainerName a) t) payload.

(** The five runtime calls of startAgent for [agent], in program order, when
    the network gets the ID [nwID] and the container is described by [cfg]. *)
Definition startProtocol (agent : AgentConfig) (nwID : string)
    (cfg : DockerContainerConfig) (t : TxNodeService W RC) : list Event :=
  [CallEnsureLocalImage ("agent " +:+ Agent_ID agent) (Agent_Image agent) true;
   CallCreatePublicNetwork (ContainerName agent);
   CallStartContainer cfg;
   CallAttachNetwork (Container_ID (scannerContainer t)) nwID;
   CallAttachNetwork (Container_ID (jsonRpcContainer t)) nwID].

(** A runtime whose StartContainer, when it succeeds, returns a handle that
    carries the requested name. *)
Definition NameFaithful : Prop :=
  ∀ cfg w c, (StartContainer cfg w).2 = Ok c → Container_Name c = Cfg_Name cfg.


End SupervisionDispatch.

Section InspectionSchedule.
Context {Results Proto : Type}.
Context (ToProtoInspectionResults : Results → Proto).

(** What can happen to a started inspector: the bus delivers a block message
    to handleScannerBlock (subscribed by registerMessageHandlers), the
    goroutine of the watchdog is scheduled, or the goroutine of the worker
    is. *)
Inductive Activity : Type :=
| BlockMessage (now : Z) (payload : ScannerPayload)
| WatchdogRuns (now : Z) (rpc : RpcReply)
| WorkerRuns (Inspect : nat → InspectionConfig → Results * option error)
             (granted : nat).

(** One activity on the watchdog's program point and the inspector; [None]
    is a panic. *)
Definition perform (a : Activity) (st : WatchdogPC * @Inspector Results Proto)
  : option (WatchdogPC * @Inspector Results Proto) :=
  match a with
  | BlockMessage now payload =>
      ins' ← handleScannerBlock now payload st.2 ; Some (st.1, ins')
  | WatchdogRuns now rpc => watchdogStep now rpc st.1 st.2
  | WorkerRuns Inspect granted =>
      Some (st.1, inspectionWorker ToProtoInspectionResults Inspect granted st.2)
  end.

Fixpoint performAll (acts : list Activity)
    (st : WatchdogPC * @Inspector Results Proto)
  : option (WatchdogPC * @Inspector Results Proto) :=
  match acts with
  | [] => Some st
  | a :: rest => st' ← perform a st ; performAll rest st'
  end.

(** func (ins *Inspector) Stop() error *)
Definition Stop (ins : @Inspector Results Proto)
  : @Inspector Results Proto * option error :=
  (ins, None).

(** func (ins *Inspector) Name() string *)
Definition Name (ins : @Inspector Results Proto) : string := "inspector".

End InspectionSchedule.

(** ** The agent server mock (package main, after supervision.go) *)

(** protocol.ResponseStatus, protocol.Finding_Severity and
    protocol.Finding_FindingType of forta-core-go. *)
Inductive ResponseStatus : Type :=
| ResponseStatus_UNKNOWN
| ResponseStatus_ERROR
| ResponseStatus_SUCCESS.

Inductive Finding_Severity : Type :=
| Finding_UNKNOWN_SEVERITY
| Finding_INFO
| Finding_LOW
| Finding_MEDIUM
| Finding_HIGH
| Finding_CRITICAL.

Inductive Finding_FindingType : Type :=
| Finding_UNKNOWN_TYPE
| Finding_EXPLOIT
| Finding_SUSPICIOUS
| Finding_DEGRADED
| Finding_INFORMATION
| Finding_SCAM.

(** protocol.Finding with the fields the mock fills in; nil maps and slices
    are empty. *)
Record Finding : Type := mkFinding {
  Finding_Protocol : string;
  Finding_Severity_ : Finding_Severity;
  Finding_Metadata : gmap string string;
  Finding_Type : Finding_FindingType;
  Finding_AlertId : string;
  Finding_Name : string;
  Finding_Description : string;
  Finding_EverestId : string;
  Finding_Private : bool;
  Finding_Addresses : list string;
  Finding_Indicators : list string
}.

(** The request of EvaluateAlert: every [*T] of the Go types is an option,
    nil being [None]. *)
Record AlertEvent_Alert : Type := mkAlert {
  Alert_Metadata : gmap string string
}.

Record AlertEvent_Network : Type := mkNetwork {
  Network_ChainId : string
}.

Record AlertEvent : Type := mkAlertEvent {
  Event_Alert : option AlertEvent_Alert;
  Event_Network : option AlertEvent_Network
}.

Record EvaluateAlertRequest : Type := mkEvaluateAlertRequest {
  Request_Event : option AlertEvent
}.

Record EvaluateAlertResponse : Type := mkEvaluateAlertResponse {
  Response_Status : ResponseStatus;
  Response_Findings : list Finding
}.

(** var alertSubscriptions *)
Definition alertSubscriptions : list string :=
  ["0xe66d22cdcfe0b7e03cbd01e554727fa760aa4170e3d565b7c5a2547f587225ad"].

(** func (as *agentServer) Initialize: the status and the subscriptions of
    the response; the error is nil. *)
Definition Initialize : ResponseStatus * list string :=
  (ResponseStatus_SUCCESS, alertSubscriptions).

(** func (as *agentServer) EvaluateTx: the status of the response; it has no
    findings and the error is nil. *)
Definition EvaluateTx : ResponseStatus := ResponseStatus_SUCCESS.

(** The finding that EvaluateAlert appends. *)
Definition traceFinding : Finding :=
  {| Finding_Protocol := "1";
     Finding_Severity_ := Finding_CRITICAL;
     Finding_Metadata := ∅;
     Finding_Type := Finding_INFORMATION;
     Finding_AlertId := "mock-alert-id";
     Finding_Name := "supporting trace";
     Finding_Description := "this is a mainnet node with trace support";
     Finding_EverestId := "";
     Finding_Private := false;
     Finding_Addresses := [];
     Finding_Indicators := [] |}.

(** Go's [m[key]] on a [map[string]string]: the empty string when the key is
    absent (or the map nil). *)
Definition map_get (m : gmap string string) (key : string) : string :=
  default "" (m !! key).

(** func (as *agentServer) EvaluateAlert(ctx, alertRequest): the response;
    the error is nil.  [None] is the panic of a nil dereference in
    [alertRequest.Event.Alert.Metadata] or [alertRequest.Event.Network]. *)
Definition EvaluateAlert (alertRequest : option EvaluateAlertRequest)
  : option EvaluateAlertResponse :=
  req ← alertRequest ;
  event ← Request_Event req ;
  alert ← Event_Alert event ;
  let trace := String.eqb (map_get (Alert_Metadata alert)
                             "containerTraceSupported") "1" in
  network ← Event_Network event ;
  let isMainnet := String.eqb (Network_ChainId network) "1" in
  Some (mkEvaluateAlertResponse ResponseStatus_SUCCESS
          (if trace && isMainnet then [traceFinding] else [])).

(** ** _release/scripts/debian-version.sh *)

(** The script reads its argument with [IFS=. read MAJOR MINOR PATCH] from a
    here-document and echoes ["$MAJOR.$MINOR-$PATCH"].  [read] takes the
    first field up to the first dot, the second up to the next dot and gives
    the rest of the line to the last variable; a variable without a field is
    empty. *)

(** [cut s]: the part of [s] before its first dot and, when there is a dot,
    the part after it. *)
Fixpoint cut (s : string) : string * option string :=
  match s with
  | EmptyString => (EmptyString, None)
  | String c rest =>
      if Ascii.eqb c "."%char then (EmptyString, Some rest)
      else let '(field, after) := cut rest in (String c field, after)
  end.

Fixpoint has (c : ascii) (s : string) : bool :=
  match s with
  | EmptyString => false
  | String c' rest => Ascii.eqb c' c || has c rest
  end.

Fixpoint ends_with (c : ascii) (s : string) : bool :=
  match s with
  | EmptyString => false
  | String c' EmptyString => Ascii.eqb c' c
  | String _ rest => ends_with c rest
  end.

(** The three variables after the [read]. *)
Definition read_semver (line : string) : string * string * string :=
  let '(major, after1) := cut line in
  match after1 with
  | None => (major, "", "")
  | Some rest1 =>
      let '(minor, after2) := cut rest1 in
      match after2 with
      | None => (major, minor, "")
      | Some rest2 => (major, minor, rest2)
      end
  end.

(** The output of the script for the argument [SEMVER].  The model covers
    the arguments for which every POSIX shell reads the same three values:
    [None] stands for an argument with a backslash ([read] is used without
    [-r]) or a line break, or whose third value would end with a dot
    (shells differ on a trailing separator of the last variable). *)
Definition debian_version (SEMVER : string) : option string :=
  if has "\"%char SEMVER || has "010"%char SEMVER then None
  else
    let '(major, minor, patch) := read_semver SEMVER in
    if ends_with "."%char patch then None
    else Some (major +:+ "." +:+ minor +:+ "-" +:+ patch +:+ String "010"%char "").

(** ** Inputs for the examples *)

(** Two qualifying block messages, a timed-out watchdog and a worker. *)
Definition busySchedule : list (@Activity string) :=
  [BlockMessage 5 (mkScannerPayload 100);
   BlockMessage 6 (mkScannerPayload 110);
   WatchdogRuns (Minute * 11) (DialFailed (ErrRuntime "dial"));
   WorkerRuns inspectAlwaysFails 1;
   WatchdogRuns (Minute * 12) (DialFailed (ErrRuntime "dial"))].

(** An inspector with a negative cadence from the override. *)
Definition inspectorNegative : @Inspector string string :=
  NewInspector 10 false
    (mkInspectorConfig "http://scan:8545" "http://trace:8545" "forta-proxy"
       "8545" false false (Some (-10))).

(** A request of EvaluateAlert from a mainnet node with trace support. *)
Definition mainnetTraceRequest : EvaluateAlertRequest :=
  mkEvaluateAlertRequest
    (Some (mkAlertEvent
             (Some (mkAlert {["containerTraceSupported" := "1"]}))
             (Some (mkNetwork "1")))).

(* ===================================================================== *)
(** * Part IV.  Properties of the Fleet Supervisor                        *)
(* ===================================================================== *)

Section SupervisionProperties.
Context {W RC : Type} `{!DockerClient W} `{!ConfigPkg RC}.
Implicit Types (t : TxNodeService W RC) (payload : AgentPayload).
Implicit Types (evs : list Event) (stopped : gmap string bool).

Lemma new_events_app t t' evs :
  trace t' = (trace t ++ evs)%list → new_events t t' = evs.
Proof. unfold new_events. intros ->. by rewrite drop_app_length. Qed.

Lemma publications_app evs1 evs2 :
  publications (evs1 ++ evs2) = (publications evs1 ++ publications evs2)%list.
Proof. apply omap_app. Qed.

Lemma startCalls_app evs1 evs2 :
  startCalls (evs1 ++ evs2) = (startCalls evs1 ++ startCalls evs2)%list.
Proof. apply omap_app. Qed.

Lemma attachCalls_app evs1 evs2 :
  attachCalls (evs1 ++ evs2) = (attachCalls evs1 ++ attachCalls evs2)%list.
Proof. apply omap_app. Qed.

Lemma stopCalls_app evs1 evs2 :
  stopCalls (evs1 ++ evs2) = (stopCalls evs1 ++ stopCalls evs2)%list.
Proof. apply omap_app. Qed.

Lemma logs_app evs1 evs2 :
  logs (evs1 ++ evs2) = (logs evs1 ++ logs evs2)%list.
Proof. apply omap_app. Qed.

(** ** The Fleet Table lookup *)

Lemma lookupContainer_Some name cs c :
  lookupContainer name cs = Some c → c ∈ cs ∧ Container_Name c = name.
Proof.
  induction cs as [|c' cs IH]; simpl; [done|].
  destruct (String.eqb_spec (Container_Name c') name) as [Heq|Hne].
  - intros [= <-]. split; [left | done].
  - intros Hl. destruct (IH Hl) as [Hin Hn]. split; [by right | done].
Qed.

Lemma lookupContainer_None name cs :
  lookupContainer name cs = None ↔ name ∉ Container_Name <$> cs.
Proof.
  induction cs as [|c' cs IH]; simpl.
  - split; [intros _; apply not_elem_of_nil | done].
  - destruct (String.eqb_spec (Container_Name c') name) as [Heq|Hne].
    + split; [done | intros Hn; exfalso; apply Hn; rewrite Heq; left].
    + rewrite IH, not_elem_of_cons. intuition congruence.
Qed.

Lemma getContainerUnsafe_None name t :
  getContainerUnsafe name t = None ↔ name ∉ tableNames t.
Proof. apply lookupContainer_None. Qed.

Lemma getContainerUnsafe_is_Some name t :
  name ∈ tableNames t → is_Some (getContainerUnsafe name t).
Proof.
  intros Hin. destruct (getContainerUnsafe name t) eqn:E; [by eexists|].
  by apply getContainerUnsafe_None in E.
Qed.

(** ** The stop loop *)

Lemma isStopped_insert stopped k id :
  isStopped (<[k := true]> stopped) id = true
  ↔ id = k ∨ isStopped stopped id = true.
Proof.
  unfold isStopped. rewrite lookup_insert.
  case_decide; simpl; intuition congruence.
Qed.

Lemma stopAgents_spec payload : ∀ stopped t t' r,
  stopAgents payload stopped t = (t', r) →
  containers t' = containers t ∧
  ∃ evs, trace t' = (trace t ++ evs)%list ∧
    publications evs = [] ∧
    (∀ id, id ∈ stopCalls evs → ∃ c, c ∈ containers t ∧ Container_ID c = id) ∧
    match r with
    | Ok stopped' =>
        (∀ id, isStopped stopped' id = true
               ↔ isStopped stopped id = true ∨ id ∈ stopCalls evs) ∧
        (∀ a, a ∈ payload → getContainerUnsafe (ContainerName a) t = None →
              LogStopSkipped (ContainerName a) ∈ logs evs)
    | Err _ => True
    end.
Proof.
  induction payload as [|a rest IH]; intros stopped t t' r; simpl.
  - intros [= <- <-]. split; [done|]. exists []. rewrite app_nil_r.
    repeat split; try done.
    + intros id Hin. by apply elem_of_nil in Hin.
    + by left.
    + intros [?|Hin]; [done | by apply elem_of_nil in Hin].
    + intros a Hin. by apply elem_of_nil in Hin.
  - destruct (getContainerUnsafe (ContainerName a) t) as [c|] eqn:Hlook.
    + unfold client_StopContainer, call.
      destruct (StopContainer (Container_ID c) (world t)) as [w' [err|]] eqn:Hstop.
      * intros [= <- <-]. simpl. split; [done|].
        exists [CallStopContainer (Container_ID c)]. repeat split; try done.
        intros id Hin. apply list_elem_of_singleton in Hin as ->.
        exists c. split; [|done]. by apply lookupContainer_Some in Hlook as [? _].
      * intros Hrest. apply IH in Hrest as (Hc & evs & Htr & Hpub & Hstops & Hr).
        simpl in Hc, Htr. split; [done|].
        exists (CallStopContainer (Container_ID c)
                  :: Log (LogStopped (ContainerName a)) :: evs).
        split; [rewrite Htr; by rewrite <- !app_assoc|].
        split; [done|]. split.
        { intros id. simpl. rewrite elem_of_cons. intros [->|Hin].
          - exists c. split; [|done].
            by apply lookupContainer_Some in Hlook as [? _].
          - destruct (Hstops id Hin) as (c' & Hin' & Hid). by exists c'. }
        destruct r as [stopped'|e]; [|done]. destruct Hr as [Hst Hskip]. split.
        { intros id. rewrite Hst, isStopped_insert. simpl.
          rewrite elem_of_cons. intuition congruence. }
        intros a' Hin Hnone. apply elem_of_cons in Hin as [->|Hin].
        { unfold getContainerUnsafe in *. congruence. }
        simpl. right. apply Hskip; [done|]. by unfold getContainerUnsafe in *.
    + intros Hrest. apply IH in Hrest as (Hc & evs & Htr & Hpub & Hstops & Hr).
      simpl in Hc, Htr. split; [done|].
      exists (Log (LogStopSkipped (ContainerName a)) :: evs).
      split; [rewrite Htr; by rewrite <- app_assoc|].
      split; [done|]. split; [done|].
      destruct r as [stopped'|e]; [|done]. destruct Hr as [Hst Hskip]. split.
      { done. }
      intros a' Hin Hnone. simpl. apply elem_of_cons in Hin as [->|Hin].
      { left. }
      right. apply Hskip; [done|]. by unfold getContainerUnsafe in *.
Qed.

Lemma isStopped_empty id : isStopped ∅ id = false.
Proof. unfold isStopped. by rewrite lookup_empty. Qed.

(** handleAgentStop as a whole: what it adds to the trace and what it does to
    the Fleet Table, on success and on error. *)
Lemma handleAgentStop_spec payload t t' r :
  handleAgentStop payload t = (t', r) →
  ∃ evs, new_events t t' = evs ∧
    (∀ id, id ∈ stopCalls evs → ∃ c, c ∈ containers t ∧ Container_ID c = id) ∧
    match r with
    | Ok _ =>
        containers t' =
          List.filter
            (λ c, negb (bool_decide (Container_ID c ∈ stopCalls evs)))
            (containers t) ∧
        publications evs =
          (if (0 <? length payload)%nat
           then [(SubjectAgentsStatusStopped, payload)] else []) ∧
        (∀ a, a ∈ payload → getContainerUnsafe (ContainerName a) t = None →
              LogStopSkipped (ContainerName a) ∈ logs evs)
    | Err _ => containers t' = containers t ∧ publications evs = []
    end.
Proof.
  unfold handleAgentStop.
  destruct (stopAgents payload ∅ t) as [t1 [stopped|err]] eqn:Hloop;
    apply stopAgents_spec in Hloop as (Hc & evs & Htr & Hpub & Hstops & Hr).
  - destruct Hr as [Hst Hskip].
    assert (Hfilter :
      List.filter (λ c, negb (isStopped stopped (Container_ID c))) (containers t1)
      = List.filter (λ c, negb (bool_decide (Container_ID c ∈ stopCalls evs)))
          (containers t)).
    { rewrite Hc. apply List.filter_ext. intros c. f_equal.
      apply eq_true_iff_eq. rewrite Hst, isStopped_empty, bool_decide_eq_true.
      intuition discriminate. }
    destruct (0 <? length payload)%nat eqn:Hlen; intros [= <- <-].
    + exists (evs ++ [Publish SubjectAgentsStatusStopped payload])%list.
      split; [apply new_events_app; simpl; by rewrite Htr, app_assoc|].
      rewrite stopCalls_app, publications_app, logs_app, Hpub. simpl.
      rewrite !app_nil_r. split; [done|]. split; [done|]. split; [done|].
      intros a Hin Hnone. by apply Hskip.
    + exists evs. split; [by apply new_events_app|].
      split; [done|]. split; [done|]. split; [done|]. done.
  - intros [= <- <-]. exists evs. split; [by apply new_events_app|].
    split; [done|]. split; done.
Qed.


(** C5.  In a batch [A; B] whose agents both have records, a failing runtime
    stop call for A makes the handler return an error after that one call: B
    is not processed, both records are still in the unchanged Fleet Table and
    nothing is published. *)
Theorem stop_failure_aborts_batch A B cA cB t w' err :
  getContainerUnsafe (ContainerName A) t = Some cA →
  getContainerUnsafe (ContainerName B) t = Some cB →
  StopContainer (Container_ID cA) (world t) = (w', Some err) →
  ∃ t', handleAgentStop [A; B] t
          = (t', Err (ErrStopFailed (Container_ID cA) err)) ∧
    new_events t t' = [CallStopContainer (Container_ID cA)] ∧
    containers t' = containers t ∧
    getContainerUnsafe (ContainerName A) t' = Some cA ∧
    getContainerUnsafe (ContainerName B) t' = Some cB ∧
    publications (new_events t t') = [].
Proof.
  intros HA HB Hstop. unfold handleAgentStop. simpl. rewrite HA.
  unfold client_StopContainer, call. rewrite Hstop. eexists. split; [done|].
  assert (Hnew : new_events t
            (set_world w' (emit (CallStopContainer (Container_ID cA)) t))
          = [CallStopContainer (Container_ID cA)])
    by by apply new_events_app.
  rewrite Hnew. by repeat split.
Qed.

(** C9.  When handleAgentStop returns an error the Fleet Table is exactly the
    one before the request, whatever stop calls of the batch had already
    succeeded; records are removed only when it returns nil, in one update
    that drops the records of the containers the request stopped. *)
Theorem stop_error_keeps_table payload t t' r :
  handleAgentStop payload t = (t', r) →
  match r with
  | Err _ => containers t' = containers t
  | Ok _ =>
      containers t' =
        List.filter
          (λ c, negb (bool_decide
                        (Container_ID c ∈ stopCalls (new_events t t'))))
          (containers t)
  end.
Proof.
  intros Hrun.
  destruct (handleAgentStop_spec _ _ _ _ Hrun) as (evs & <- & _ & Hr).
  destruct r; by destruct Hr.
Qed.

(** ** Starting an agent *)

Lemma startAgentContainer_spec agent t t1 r :
  startAgentContainer agent t = (t1, r) →
  containers t1 = containers t ∧
  scannerContainer t1 = scannerContainer t ∧
  jsonRpcContainer t1 = jsonRpcContainer t ∧
  ∃ evs, trace t1 = (trace t ++ evs)%list ∧
    publications evs = [] ∧
    match r with
    | Ok _ => Cfg_Name <$> startCalls evs = [ContainerName agent]
    | Err _ => True
    end.
Proof.
  unfold startAgentContainer, mbind, M_bind, ensureLocalImage, check,
    client_CreatePublicNetwork, client_StartContainer, get, call.
  destruct (EnsureLocalImage _ _ _ (world t)) as [w1 [e|]]; simpl.
  { intros [= <- <-]. repeat split. by eexists [_]. }
  destruct (CreatePublicNetwork _ w1) as [w2 [nwID|e]]; simpl.
  2: { intros [= <- <-]. repeat split. eexists [_; _]. simpl.
       by rewrite <- app_assoc. }
  destruct (StartContainer _ w2) as [w3 [c|e]]; simpl.
  - intros [= <- <-]. repeat split. eexists [_; _; _]. simpl.
    by rewrite <- !app_assoc.
  - intros [= <- <-]. repeat split. eexists [_; _; _]. simpl.
    by rewrite <- !app_assoc.
Qed.

(** C8.  Once the container of an agent has started, startAgent attaches the
    scanner and then the JSON-RPC proxy to the agent's network.  A nil or
    "already attached" result is passed over; when both are, the container is
    recorded and the "running" status published.  Any other attachment error
    makes startAgent return it: no record is added, nothing is published for
    the agent, and handleAgentRun logs the failure and goes on with the rest
    of the batch. *)
Theorem attach_failure_aborts_one_agent agent rest t t1 nwID c w4 r1 w5 r2 :
  getContainerUnsafe (ContainerName agent) t = None →
  startAgentContainer agent t = (t1, Ok (nwID, c)) →
  AttachNetwork (Container_ID (scannerContainer t)) nwID (world t1) = (w4, r1) →
  AttachNetwork (Container_ID (jsonRpcContainer t)) nwID w4 = (w5, r2) →
  let scanner := (Container_ID (scannerContainer t), nwID) in
  let proxy := (Container_ID (jsonRpcContainer t), nwID) in
  ∃ t',
    match attachFailure r1 r2 with
    | None =>
        startAgent agent t = (t', Ok ()) ∧
        attachCalls (new_events t1 t') = [scanner; proxy] ∧
        containers t' = (containers t ++ [c])%list ∧
        runAgents (agent :: rest) t
          = runAgents rest (emit (Publish SubjectAgentsStatusRunning [agent]) t')
    | Some err =>
        startAgent agent t = (t', Err err) ∧
        err ≠ ErrAlreadyExistsInNetwork ∧
        attachCalls (new_events t1 t')
          = (if tolerated r1 then [scanner; proxy] else [scanner]) ∧
        containers t' = containers t ∧
        publications (new_events t t') = [] ∧
        runAgents (agent :: rest) t
          = runAgents rest (emit (Log (LogFailedToStartAgent err)) t')
    end.
Proof.
  intros Hfresh Hstart Hat1 Hat2 scanner proxy.
  destruct (startAgentContainer_spec _ _ _ _ Hstart)
    as (Hc & Hsc & Hjr & evs & Htr & Hpub & _).
  assert (Hshape : ∀ t', startAgent agent t = (t', Ok ()) →
    runAgents (agent :: rest) t
      = runAgents rest (emit (Publish SubjectAgentsStatusRunning [agent]) t')).
  { intros t' Hs. simpl. by rewrite Hfresh, Hs. }
  assert (Hshape' : ∀ t' err, startAgent agent t = (t', Err err) →
    runAgents (agent :: rest) t
      = runAgents rest (emit (Log (LogFailedToStartAgent err)) t')).
  { intros t' err Hs. simpl. by rewrite Hfresh, Hs. }
  assert (Hrun : startAgent agent t =
    (attachNetworks
       [Container_ID (scannerContainer t); Container_ID (jsonRpcContainer t)]
       nwID ;; addContainerUnsafe [c]) t1).
  { unfold startAgent, mbind at 1, M_bind at 1. rewrite Hstart.
    unfold mbind at 1, M_bind at 1, get. by rewrite Hsc, Hjr. }
  unfold mbind, M_bind in Hrun. simpl in Hrun.
  unfold client_AttachNetwork, call in Hrun. rewrite Hat1 in Hrun.
  unfold attachFailure.
  destruct r1 as [[| |]|]; simpl in Hrun |- *;
    try (eexists; split; [exact Hrun|]; split; [done|];
         split; [by erewrite new_events_app by (simpl; reflexivity)|];
         split; [done|];
         split; [by erewrite new_events_app, publications_app, Hpub
                      by (simpl; rewrite Htr, <- app_assoc; reflexivity)|];
         by apply Hshape').
  all: rewrite Hat2 in Hrun.
  all: destruct r2 as [[| |]|]; simpl in Hrun |- *.
  all: try (eexists; split; [exact Hrun|];
         split; [by erewrite new_events_app
                      by (simpl; rewrite <- app_assoc; reflexivity)|];
         split; [simpl; by rewrite Hc|]; by apply Hshape).
  all: eexists; split; [exact Hrun|]; split; [done|];
         split; [by erewrite new_events_app
                      by (simpl; rewrite <- app_assoc; reflexivity)|];
         split; [done|];
         split; [by erewrite new_events_app, publications_app, Hpub
                      by (simpl; rewrite Htr, <- !app_assoc; reflexivity)|];
         by apply Hshape'.
Qed.

(** ** Running a batch twice *)

Lemma attachNetworks_reliable ids nwID :
  (∀ containerID nw w, tolerated (AttachNetwork containerID nw w).2 = true) →
  ∀ t, ∃ t', attachNetworks ids nwID t = (t', Ok ()) ∧
    containers t' = containers t ∧
    ∃ evs, trace t' = (trace t ++ evs)%list ∧
      publications evs = [] ∧ startCalls evs = [].
Proof.
  intros Hattach. induction ids as [|id ids IH]; intros t; simpl.
  - exists t. repeat split. exists []. by rewrite app_nil_r.
  - unfold client_AttachNetwork, call.
    pose proof (Hattach id nwID (world t)) as Htol.
    destruct (AttachNetwork id nwID (world t)) as [w' r]. simpl in Htol.
    set (t1 := set_world w' (emit (CallAttachNetwork id nwID) t)).
    destruct (IH t1) as (t' & Hrun & Hc & evs & Htr & Hpub & Hst).
    assert (Hgoal : ∃ t'0, attachNetworks ids nwID t1 = (t'0, Ok ()) ∧
      containers t'0 = containers t ∧
      ∃ evs0, trace t'0 = (trace t ++ evs0)%list ∧
        publications evs0 = [] ∧ startCalls evs0 = []).
    { exists t'. split; [done|]. split; [done|].
      exists (CallAttachNetwork id nwID :: evs). split; [|done].
      rewrite Htr. simpl. by rewrite <- app_assoc. }
    destruct r as [[| |]|]; simpl in Htol; try discriminate; exact Hgoal.
Qed.

Lemma startAgent_reliable agent t :
  ReliableRuntime →
  ∃ t' c, startAgent agent t = (t', Ok ()) ∧
    containers t' = (containers t ++ [c])%list ∧
    Container_Name c = ContainerName agent ∧
    ∃ evs, trace t' = (trace t ++ evs)%list ∧
      publications evs = [] ∧
      Cfg_Name <$> startCalls evs = [ContainerName agent].
Proof.
  intros (Himg & Hnet & Hstart & Hattach).
  destruct (startAgentContainer agent t) as [t1 r] eqn:Hsac.
  assert (∃ nwID c, r = Ok (nwID, c) ∧ Container_Name c = ContainerName agent)
    as (nwID & c & -> & Hname).
  { revert Hsac.
    unfold startAgentContainer, mbind, M_bind, ensureLocalImage, check,
      client_CreatePublicNetwork, client_StartContainer, get, call.
    pose proof (Himg ("agent " +:+ Agent_ID agent) (Agent_Image agent) true
                  (world t)) as H1.
    destruct (EnsureLocalImage _ _ _ (world t)) as [w1 r1]. simpl in H1.
    subst r1. simpl.
    destruct (Hnet (ContainerName agent) w1) as [nwID H2].
    destruct (CreatePublicNetwork _ w1) as [w2 r2]. simpl in H2. subst r2.
    simpl.
    match goal with |- context [StartContainer ?cfg w2] =>
      destruct (Hstart cfg w2) as (c & H3 & Hname);
      destruct (StartContainer cfg w2) as [w3 r3] end.
    simpl in H3. subst r3. simpl. intros [= <- <-]. by exists nwID, c. }
  destruct (startAgentContainer_spec _ _ _ _ Hsac)
    as (Hc & Hsc & Hjr & evs & Htr & Hpub & Hcalls).
  destruct (attachNetworks_reliable
              [Container_ID (scannerContainer t1);
               Container_ID (jsonRpcContainer t1)] nwID Hattach t1)
    as (t2 & Hrun & Hc2 & evs2 & Htr2 & Hpub2 & Hst2).
  exists (set_containers (containers t2 ++ [c]) t2), c.
  split.
  { unfold startAgent, mbind at 1, M_bind at 1. rewrite Hsac.
    unfold mbind, M_bind, get. by rewrite Hrun. }
  split; [simpl; by rewrite Hc2, Hc|]. split; [done|].
  exists (evs ++ evs2)%list. simpl. rewrite Htr2, Htr, app_assoc.
  split; [done|].
  rewrite publications_app, startCalls_app, Hpub, Hpub2, Hst2, !app_nil_r.
  done.
Qed.

(** A first run, on descriptors none of which is recorded yet. *)
Lemma runAgents_fresh payload :
  ReliableRuntime →
  ∀ t, NoDup (ContainerName <$> payload) →
    (∀ a, a ∈ payload → ContainerName a ∉ tableNames t) →
    ∃ evs, trace (runAgents payload t) = (trace t ++ evs)%list ∧
      Cfg_Name <$> startCalls evs = ContainerName <$> payload ∧
      publications evs = runningStatus <$> payload ∧
      tableNames (runAgents payload t)
        = (tableNames t ++ (ContainerName <$> payload))%list.
Proof.
  intros Hrel. induction payload as [|a rest IH]; intros t Hnd Hfresh; simpl.
  - exists []. by rewrite !app_nil_r.
  - assert (Hnone : getContainerUnsafe (ContainerName a) t = None).
    { apply getContainerUnsafe_None, Hfresh. left. }
    rewrite Hnone.
    destruct (startAgent_reliable a t Hrel)
      as (t1 & c & -> & Hc & Hname & evs & Htr & Hpub & Hcalls).
    apply NoDup_cons in Hnd as [Hnotin Hnd].
    set (t2 := emit (Publish SubjectAgentsStatusRunning [a]) t1).
    assert (Hnames : tableNames t2 = (tableNames t ++ [ContainerName a])%list).
    { unfold tableNames. simpl. by rewrite Hc, fmap_app, <- Hname. }
    destruct (IH t2 Hnd) as (evs' & Htr' & Hcalls' & Hpub' & Hnames').
    { intros b Hb. rewrite Hnames, elem_of_app, list_elem_of_singleton.
      intros [Hin|Heq].
      - eapply Hfresh; [right; exact Hb | exact Hin].
      - apply Hnotin. rewrite <- Heq. by apply list_elem_of_fmap_2. }
    exists (evs ++ Publish SubjectAgentsStatusRunning [a] :: evs')%list.
    split.
    { rewrite Htr'. simpl. rewrite Htr. by rewrite <- !app_assoc. }
    rewrite startCalls_app, publications_app, fmap_app, Hpub. simpl.
    rewrite Hcalls, Hcalls', Hpub', Hnames', Hnames, <- app_assoc. done.
Qed.

(** A run on descriptors all of which are recorded. *)
Lemma runAgents_recorded payload :
  ∀ t, (∀ a, a ∈ payload → ContainerName a ∈ tableNames t) →
    ∃ evs, trace (runAgents payload t) = (trace t ++ evs)%list ∧
      startCalls evs = [] ∧
      publications evs = runningStatus <$> payload ∧
      containers (runAgents payload t) = containers t.
Proof.
  induction payload as [|a rest IH]; intros t Hrec; simpl.
  - exists []. by rewrite app_nil_r.
  - destruct (getContainerUnsafe_is_Some (ContainerName a) t) as [c ->].
    { apply Hrec. left. }
    edestruct IH as (evs & -> & Hcalls & Hpub & ->).
    { intros b Hb. unfold tableNames. simpl. apply Hrec. by right. }
    simpl. eexists (_ :: _ :: evs). split.
    { by rewrite <- !app_assoc. }
    simpl. by rewrite Hcalls, Hpub.
Qed.

Lemma count_absent {A : Type} `{EqDecision A} (x : A) (l : list A) :
  x ∉ l → length (filter (λ y, y = x) l) = 0%nat.
Proof.
  induction l as [|y l IH]; [done|]. intros Hnotin.
  apply not_elem_of_cons in Hnotin as [Hne Hnotin].
  rewrite filter_cons, decide_False by done. by apply IH.
Qed.

Lemma count_NoDup {A : Type} `{EqDecision A} (x : A) (l : list A) :
  NoDup l → x ∈ l → length (filter (λ y, y = x) l) = 1%nat.
Proof.
  induction 1 as [|y l Hnotin Hnd IH]; intros Hin.
  - by apply elem_of_nil in Hin.
  - rewrite filter_cons. apply elem_of_cons in Hin as [->|Hin].
    + rewrite decide_True by done. simpl. f_equal. by apply count_absent.
    + rewrite decide_False; [by apply IH|]. intros ->. by apply Hnotin.
Qed.

Lemma count_fmap {A B : Type} `{EqDecision B} (f : A → B) (b : B) (l : list A) :
  length (filter (λ a, f a = b) l) = length (filter (λ y, y = b) (f <$> l)).
Proof.
  induction l as [|a l IH]; [done|].
  rewrite fmap_cons, !filter_cons.
  destruct (decide (f a = b)); simpl; by rewrite IH.
Qed.

(** C6 (amended).  On a runtime whose start-up calls do not fail and whose
    StartContainer returns a handle with the requested name, for a batch
    without duplicate container names none of which is recorded yet, in a
    Fleet Table without duplicate names: handling "run agents" twice makes
    one StartContainer call and two "running" publications per descriptor,
    and the Fleet Table still holds at most one record per name. *)
Theorem run_twice_idempotent payload t :
  ReliableRuntime →
  NoDup (ContainerName <$> payload) →
  (∀ a, a ∈ payload → getContainerUnsafe (ContainerName a) t = None) →
  NoDup (tableNames t) →
  RunTwiceClaim payload t.
Proof.
  intros Hrel Hnd Hfresh Htable. unfold RunTwiceClaim, runTwice, handleAgentRun.
  simpl.
  set (t0 := emit (Log (LogHandleAgentRun (length payload))) t).
  destruct (runAgents_fresh payload Hrel t0 Hnd)
    as (evs1 & Htr1 & Hcalls1 & Hpub1 & Hnames1).
  { intros a Ha. by apply getContainerUnsafe_None, Hfresh. }
  set (t1 := runAgents payload t0) in *.
  set (t1' := emit (Log (LogHandleAgentRun (length payload))) t1).
  destruct (runAgents_recorded payload t1')
    as (evs2 & Htr2 & Hcalls2 & Hpub2 & Hc2).
  { intros a Ha. unfold tableNames. simpl. fold (tableNames t1).
    rewrite Hnames1. apply elem_of_app. right. by apply list_elem_of_fmap_2. }
  set (t2 := runAgents payload t1') in *.
  assert (Hnew : new_events t t2 =
    (Log (LogHandleAgentRun (length payload)) :: evs1 ++
     Log (LogHandleAgentRun (length payload)) :: evs2)%list).
  { apply new_events_app. rewrite Htr2. simpl. rewrite Htr1. simpl.
    by rewrite <- !app_assoc. }
  rewrite Hnew. split.
  - intros d Hd. unfold startsFor, runningFor. simpl.
    rewrite startCalls_app, publications_app. simpl.
    rewrite Hcalls2, app_nil_r, Hpub1, Hpub2. split.
    + rewrite count_fmap, Hcalls1. apply count_NoDup; [done|].
      by apply list_elem_of_fmap_2.
    + rewrite filter_app, length_app.
      assert (length (filter (λ p, p = runningStatus d)
                        (runningStatus <$> payload)) = 1%nat) as ->; [|done].
      apply count_NoDup.
      * apply NoDup_fmap_2; [|by eapply NoDup_fmap_1].
        intros a b [= ->]. done.
      * by apply (list_elem_of_fmap_2 runningStatus).
  - unfold tableNames. rewrite Hc2. simpl. fold (tableNames t1).
    rewrite Hnames1. apply NoDup_app. split; [done|]. split; [|done].
    intros n Hn Hn'. apply list_elem_of_fmap in Hn' as (a & -> & Ha).
    apply Hfresh in Ha. by apply getContainerUnsafe_None in Ha.
Qed.

End SupervisionProperties.

(* ===================================================================== *)
(** * Part V.  Properties of the Inspection Scheduler                     *)
(* ===================================================================== *)

Section InspectionProperties.
Context {Results Proto : Type} (ToProtoInspectionResults : Results → Proto).
Implicit Types (ins : @Inspector Results Proto).
Implicit Types (Inspect : nat → InspectionConfig → Results * option error).

#[local] Abbreviation toProto := ToProtoInspectionResults.

Lemma bus_since_app ins ins' evs :
  bus ins' = (bus ins ++ evs)%list → bus_since ins ins' = evs.
Proof. unfold bus_since. intros ->. by rewrite drop_app_length. Qed.

Lemma inspectionsDone_app (evs1 evs2 : list (@InspectorEvent Results Proto)) :
  inspectionsDone (evs1 ++ evs2)
  = (inspectionsDone evs1 ++ inspectionsDone evs2)%list.
Proof. apply omap_app. Qed.

Lemma inspectorLogs_app (evs1 evs2 : list (@InspectorEvent Results Proto)) :
  inspectorLogs (evs1 ++ evs2)
  = (inspectorLogs evs1 ++ inspectorLogs evs2)%list.
Proof. apply omap_app. Qed.

(** ** The block-progress handler *)

Lemma uint64_small x : 0 <= x < 2 ^ 64 → uint64 x = x.
Proof. intros Hx. unfold uint64. by apply Z.mod_small. Qed.

Lemma multiple_ge (B c : Z) : 0 < c → 0 < B → B mod c = 0 → c <= B.
Proof.
  intros Hc HB Hmod. apply Z.divide_pos_le; [done|].
  apply Z.mod_divide; [lia | done].
Qed.

(** C7.  With a cadence c > 0, a signal with latest block B sets the watchdog
    clock to now; when B > 0 and B is a multiple of c the handler attempts a
    non-blocking push of exactly B - c (the channel takes it if it has room
    and is left as it was otherwise); in every other case nothing is pushed
    and nothing is logged. *)
Theorem handleScannerBlock_cadence now B ins :
  0 < inspectEvery ins → int_range (inspectEvery ins) → uint64_range B →
  let c := inspectEvery ins in
  let ch := inspectCh ins in
  ∃ ins', handleScannerBlock now (mkScannerPayload B) ins = Some ins' ∧
    latestBlockEventTime ins' = now ∧
    (0 < B ∧ B mod c = 0 →
       c <= B ∧
       inspectCh ins' =
         (if chan_full ch then ch
          else mkChan (chan_cap ch) (chan_buf ch ++ [B - c])) ∧
       inspectorLogs (bus_since ins ins') =
         [LogTriggering B (B - c);
          if chan_full ch then LogAlreadyBusy B (B - c)
          else LogTriggered B (B - c)]) ∧
    (¬ (0 < B ∧ B mod c = 0) →
       inspectCh ins' = inspectCh ins ∧ bus ins' = bus ins).
Proof.
  intros Hpos Hint HB c ch. unfold int_range in Hint. unfold uint64_range in HB.
  unfold handleScannerBlock. simpl.
  rewrite (uint64_small (inspectEvery ins)) by lia. fold c.
  unfold go_rem. rewrite (proj2 (Z.eqb_neq c 0)) by lia.
  destruct (0 <? B) eqn:HposB; simpl.
  - apply Z.ltb_lt in HposB. destruct (B mod c =? 0) eqn:Hmod; simpl.
    + apply Z.eqb_eq in Hmod. pose proof (multiple_ge B c Hpos HposB Hmod).
      rewrite (uint64_small (B - c)) by lia.
      unfold chan_send. fold ch. destruct (chan_full ch) eqn:Hfull.
      * eexists. split; [done|]. split; [done|]. split; [|tauto].
        intros _. split; [done|]. split; [done|].
        by erewrite bus_since_app by (simpl; rewrite <- app_assoc; done).
      * eexists. split; [done|]. split; [done|]. split; [|tauto].
        intros _. split; [done|]. split; [done|].
        by erewrite bus_since_app by (simpl; rewrite <- app_assoc; done).
    + apply Z.eqb_neq in Hmod. eexists. split; [done|]. split; [done|].
      split; [tauto | done].
  - apply Z.ltb_ge in HposB. eexists. split; [done|]. split; [done|].
    split; [lia | done].
Qed.

(** C10.  Neither handleScannerBlock nor the watchdog tick guards the cadence
    before taking the remainder.  With inspectEvery > 0 neither can panic;
    with inspectEvery = 0 the handler panics on every positive block number
    and the watchdog on every timed-out tick that obtains a block number. *)
Theorem cadence_precondition now payload rpc pc ins :
  int_range (inspectEvery ins) →
  (0 < inspectEvery ins →
     handleScannerBlock now payload ins ≠ None ∧
     watchdogStep now rpc pc ins ≠ None) ∧
  (inspectEvery ins = 0 →
     (0 < LatestBlockInput payload → handleScannerBlock now payload ins = None) ∧
     (∀ blockNum, latestBlockEventTime ins + blockEventWaitTimeout < now →
        watchdogStep now (BlockNumberIs blockNum) AtSelect ins = None)).
Proof.
  intros Hint. unfold int_range in Hint. split.
  - intros Hpos. assert (Hne : (uint64 (inspectEvery ins) =? 0) = false).
    { rewrite uint64_small by lia. apply Z.eqb_neq. lia. }
    split.
    + unfold handleScannerBlock, go_rem. simpl. rewrite Hne.
      destruct (0 <? LatestBlockInput payload); simpl; [|done].
      destruct (LatestBlockInput payload `mod` _ =? 0); [|done].
      by destruct (chan_send _ _).
    + unfold watchdogStep, timeoutDecision, go_rem. rewrite Hne.
      destruct pc; [|done].
      destruct (_ <? now); simpl; [|done].
      destruct rpc as [e|e|blockNum]; simpl; [done|done|].
      by destruct (blockNum `mod` _ =? 0).
  - intros Hzero. split.
    + intros HB. unfold handleScannerBlock, go_rem. simpl. rewrite Hzero.
      apply Z.ltb_lt in HB. by rewrite HB.
    + intros blockNum Hlate. unfold watchdogStep, timeoutDecision, go_rem.
      apply Z.ltb_lt in Hlate. by rewrite Hlate, Hzero.
Qed.

(** ** The watchdog *)

(** C2 (amended).  A push the watchdog decides on (0 after a failed dial or
    block-number read, else the block number when it is a multiple of the
    cadence) is a plain channel send.  With the channel full the watchdog
    stays inside the send, the channel untouched, for as long as the channel
    is full; as soon as the channel has room the send completes and the value
    is enqueued.  The value is never dropped. *)
Theorem watchdog_send_blocks now rpc ins v :
  timeoutDecision now rpc ins = Some (Some v) →
  chan_full (inspectCh ins) = true →
  match rpc with
  | BlockNumberIs blockNum =>
      v = blockNum ∧ blockNum mod uint64 (inspectEvery ins) = 0
  | _ => v = 0
  end ∧
  watchdogStep now rpc AtSelect ins = Some (AtSend v, ins) ∧
  (∀ now' rpc' ins', chan_full (inspectCh ins') = true →
     watchdogStep now' rpc' (AtSend v) ins' = Some (AtSend v, ins')) ∧
  (∀ now' rpc' ins', chan_full (inspectCh ins') = false →
     watchdogStep now' rpc' (AtSend v) ins' =
       Some (AtSelect,
             set_inspectCh
               (mkChan (chan_cap (inspectCh ins'))
                       (chan_buf (inspectCh ins') ++ [v])) ins')).
Proof.
  intros Hdec Hfull. split; [|split; [|split]].
  - revert Hdec. unfold timeoutDecision, go_rem.
    destruct (_ <? now); [|done].
    destruct rpc as [e|e|blockNum]; try by intros [= <-].
    destruct (uint64 (inspectEvery ins) =? 0); [done|]. simpl.
    destruct (_ =? 0) eqn:Hmod; [|done]. intros [= <-].
    by apply Z.eqb_eq in Hmod.
  - unfold watchdogStep. rewrite Hdec. simpl.
    unfold watchdogSend, chan_send. by rewrite Hfull.
  - intros now' rpc' ins' Hfull'. unfold watchdogStep, watchdogSend, chan_send.
    by rewrite Hfull'.
  - intros now' rpc' ins' Hroom. unfold watchdogStep, watchdogSend, chan_send.
    by rewrite Hroom.
Qed.

(** ** The worker and its retries *)

Lemma runInspection_eq (I : InspectionConfig → Results * option error)
    blockNum ins :
  runInspection toProto I blockNum ins =
    (set_bus (bus ins ++ attemptEvents toProto (I (inspectionConfig blockNum ins)))
       ins,
     (I (inspectionConfig blockNum ins)).2).
Proof.
  unfold runInspection, attemptEvents, record, set_bus.
  destruct (I (inspectionConfig blockNum ins)) as [results [e|]]; simpl.
  - by rewrite <- !app_assoc.
  - by rewrite <- !app_assoc.
Qed.

(** The events of the attempts [attempt], ..., [attempt + n - 1]. *)
Lemma Retry_all_fail Inspect blockNum icfg :
  ∀ granted attempt ins,
    inspectionConfig blockNum ins = icfg →
    (∀ k, (attempt ≤ k ≤ attempt + granted)%nat → (Inspect k icfg).2 ≠ None) →
    Retry (λ a, runInspection toProto (Inspect a) blockNum) granted attempt ins
    = (set_bus (bus ins ++ flat_map (λ k, attemptEvents toProto (Inspect k icfg))
                             (seq attempt (S granted))) ins,
       (Inspect (attempt + granted)%nat icfg).2).
Proof.
  induction granted as [|g IH]; intros attempt ins Hcfg Hfail;
    cbn [Retry seq flat_map].
  - rewrite runInspection_eq, Hcfg, Nat.add_0_r, app_nil_r.
    destruct (Inspect attempt icfg).2 eqn:Hr; [done|].
    exfalso. apply (Hfail attempt); [lia | done].
  - rewrite runInspection_eq, Hcfg.
    destruct (Inspect attempt icfg).2 eqn:Hr.
    2: { exfalso. apply (Hfail attempt); [lia | done]. }
    rewrite IH; [|done|intros k Hk; apply Hfail; lia].
    replace (S attempt + g)%nat with (attempt + S g)%nat by lia.
    f_equal. unfold set_bus. cbn [bus cfg lastErr inspectEvery inspectTrace
      inspectCh latestBlockEventTime]. by rewrite <- app_assoc.
Qed.

(** Failures at [attempt], ..., [attempt + n - 1] and a success at
    [attempt + n], within the budget. *)
Lemma Retry_first_success Inspect blockNum icfg :
  ∀ n granted attempt ins,
    inspectionConfig blockNum ins = icfg →
    (n ≤ granted)%nat →
    (∀ k, (attempt ≤ k < attempt + n)%nat → (Inspect k icfg).2 ≠ None) →
    (Inspect (attempt + n)%nat icfg).2 = None →
    Retry (λ a, runInspection toProto (Inspect a) blockNum) granted attempt ins
    = (set_bus (bus ins ++ flat_map (λ k, attemptEvents toProto (Inspect k icfg))
                             (seq attempt (S n))) ins,
       None).
Proof.
  induction n as [|n IH]; intros granted attempt ins Hcfg Hle Hfail Hok.
  - rewrite Nat.add_0_r in Hok. destruct granted; cbn [Retry seq flat_map];
      by rewrite runInspection_eq, Hcfg, Hok, app_nil_r.
  - destruct granted as [|g]; [lia|]. cbn [Retry seq flat_map].
    rewrite runInspection_eq, Hcfg.
    destruct (Inspect attempt icfg).2 eqn:Hr.
    2: { exfalso. apply (Hfail attempt); [lia | done]. }
    rewrite (IH g (S attempt)); [|done|lia|intros k Hk; apply Hfail; lia|].
    2: { by replace (S attempt + n)%nat with (attempt + S n)%nat by lia. }
    f_equal. unfold set_bus. cbn [bus cfg lastErr inspectEvery inspectTrace
      inspectCh latestBlockEventTime]. by rewrite <- app_assoc.
Qed.

Lemma inspectionsDone_attempts (f : nat → Results * option error) l :
  inspectionsDone (flat_map (λ k, attemptEvents toProto (f k)) l)
  = (λ k, toProto (f k).1) <$> l.
Proof.
  induction l as [|k l IH]; [done|]. cbn [flat_map].
  rewrite inspectionsDone_app, IH.
  unfold attemptEvents. by destruct (f k).2.
Qed.

Lemma inspectorLogs_attempts (f : nat → Results * option error) l e b :
  LogFinallyFailed e b
    ∉ inspectorLogs (flat_map (λ k, attemptEvents toProto (f k)) l).
Proof.
  induction l as [|k l IH]; cbn [flat_map]; [apply not_elem_of_nil|].
  rewrite inspectorLogs_app, elem_of_app.
  intros [Hin|Hin]; [|done]. unfold attemptEvents in Hin.
  destruct (f k).2; simpl in Hin;
    repeat (apply elem_of_cons in Hin as [Heq|Hin]; [done|]);
    by apply elem_of_nil in Hin.
Qed.

(** C1 (amended).  Every attempt of the inspection routine publishes its
    results to "inspection:done", failed or not.  For a request drained from
    the channel: when every attempt fails until the retry budget is spent,
    one message per attempt has been published and the terminal error is
    logged; when the first two attempts fail and the third succeeds, exactly
    three messages have been published, the last one carrying the successful
    result, and no terminal error is logged. *)
Theorem every_attempt_publishes Inspect granted ins blockNum ch :
  chan_recv (inspectCh ins) = Some (blockNum, ch) →
  let icfg := inspectionConfig blockNum ins in
  let evs := bus_since ins (inspectionWorker toProto Inspect granted ins) in
  ((∀ k, (k ≤ granted)%nat → (Inspect k icfg).2 ≠ None) →
     inspectionsDone evs
       = (λ k, toProto (Inspect k icfg).1) <$> seq 0 (S granted) ∧
     ∃ e, (Inspect granted icfg).2 = Some e ∧
          LogFinallyFailed e blockNum ∈ inspectorLogs evs) ∧
  (∀ r0 e0 r1 e1 r2, (2 ≤ granted)%nat →
     Inspect 0%nat icfg = (r0, Some e0) →
     Inspect 1%nat icfg = (r1, Some e1) →
     Inspect 2%nat icfg = (r2, None) →
     inspectionsDone evs = [toProto r0; toProto r1; toProto r2] ∧
     ∀ e b, LogFinallyFailed e b ∉ inspectorLogs evs).
Proof.
  intros Hrecv icfg evs. subst evs. unfold inspectionWorker. rewrite Hrecv.
  split.
  - intros Hfail.
    rewrite (Retry_all_fail Inspect blockNum icfg); [|done|].
    2: { intros k Hk. apply Hfail. lia. }
    simpl (0 + granted)%nat.
    destruct (Inspect granted icfg).2 as [e|] eqn:Hlast.
    2: { exfalso. by apply (Hfail granted). }
    set (attempts := flat_map _ _).
    rewrite (bus_since_app _ _
               (attempts ++ [Logged (LogFinallyFailed e blockNum)])).
    2: { unfold record, set_bus.
         cbn [bus cfg lastErr inspectEvery inspectTrace inspectCh
              latestBlockEventTime set_inspectCh].
         by rewrite <- app_assoc. }
    rewrite inspectionsDone_app, inspectorLogs_app. subst attempts.
    rewrite (inspectionsDone_attempts (λ k, Inspect k icfg)).
    cbn [inspectionsDone inspectorLogs omap]. rewrite app_nil_r.
    split; [done|]. exists e. split; [done|]. apply elem_of_app. right. left.
  - intros r0 e0 r1 e1 r2 Hle H0 H1 H2.
    rewrite (Retry_first_success Inspect blockNum icfg 2); [|done|done| |].
    2: { intros k Hk. assert (k = 0 ∨ k = 1)%nat as [-> | ->] by lia.
         - by rewrite H0.
         - by rewrite H1. }
    2: { simpl. by rewrite H2. }
    set (attempts := flat_map _ _).
    rewrite (bus_since_app _ _ attempts) by done. subst attempts. split.
    + rewrite (inspectionsDone_attempts (λ k, Inspect k icfg)).
      simpl. by rewrite H0, H1, H2.
    + intros e b. apply (inspectorLogs_attempts (λ k, Inspect k icfg)).
Qed.

(** C3 (what the code does).  When the retry budget of a request is spent
    without success, the worker logs the terminal error and nothing else: the
    request is not put back in the channel, and the error tracker behind
    Health is not touched, so the "last-error" report is the one from before
    the request. *)
Theorem exhausted_retry_health_unchanged Inspect granted ins blockNum ch e :
  chan_recv (inspectCh ins) = Some (blockNum, ch) →
  (∀ k, (k ≤ granted)%nat →
        (Inspect k (inspectionConfig blockNum ins)).2 ≠ None) →
  (Inspect granted (inspectionConfig blockNum ins)).2 = Some e →
  let ins' := inspectionWorker toProto Inspect granted ins in
  last (bus ins') = Some (Logged (LogFinallyFailed e blockNum)) ∧
  inspectCh ins' = ch ∧
  lastErr ins' = lastErr ins ∧
  Health ins' = Health ins.
Proof.
  intros Hrecv Hfail Hlast. simpl. unfold inspectionWorker. rewrite Hrecv.
  rewrite (Retry_all_fail Inspect blockNum (inspectionConfig blockNum ins));
    [|done|]. 2: { intros k Hk. apply Hfail. lia. }
  simpl (0 + granted)%nat. rewrite Hlast. unfold Health. simpl.
  by rewrite last_snoc.
Qed.

End InspectionProperties.

(* ===================================================================== *)
(** * Part VI.  The properties at concrete inputs                         *)
(* ===================================================================== *)

(** ** Fleet Supervisor *)



(** Stopping [A; B], both recorded, on a runtime that cannot stop A. *)
Lemma stop_failure_aborts_batch_witness :
  ∃ t', stopOn ["id-forta-agent-A"] [agentA; agentB]
          (serviceWith [containerA; containerB])
        = (t', Err (ErrStopFailed "id-forta-agent-A"
                      (ErrRuntime "stop failed"))) ∧
    new_events (serviceWith [containerA; containerB]) t'
      = [CallStopContainer "id-forta-agent-A"] ∧
    containers t' = [containerA; containerB] ∧
    getContainerUnsafe "forta-agent-A" t' = Some containerA ∧
    getContainerUnsafe "forta-agent-B" t' = Some containerB ∧
    publications (new_events (serviceWith [containerA; containerB]) t') = [].
Proof.
  exact (@stop_failure_aborts_batch _ _
           (fakeClient [] [] ["id-forta-agent-A"]) fakeConfig
           agentA agentB containerA containerB
           (serviceWith [containerA; containerB])
           ["id-forta-agent-A"; "id-forta-agent-B"] (ErrRuntime "stop failed")
           eq_refl eq_refl eq_refl).
Defined.

(** Stopping [A; B] on a runtime that stops A and cannot stop B: the handler
    fails, the runtime no longer runs A, and the Fleet Table still lists A. *)
Lemma stop_error_keeps_table_witness :
  (stopOn ["id-forta-agent-B"] [agentA; agentB]
     (serviceWith [containerA; containerB])).2
    = Err (ErrStopFailed "id-forta-agent-B" (ErrRuntime "stop failed")) ∧
  world (stopOn ["id-forta-agent-B"] [agentA; agentB]
           (serviceWith [containerA; containerB])).1
    = ["id-forta-agent-B"] ∧
  containers (stopOn ["id-forta-agent-B"] [agentA; agentB]
                (serviceWith [containerA; containerB])).1
    = [containerA; containerB].
Proof.
  split; [reflexivity|]. split; [reflexivity|].
  exact (@stop_error_keeps_table _ _
           (fakeClient [] [] ["id-forta-agent-B"]) fakeConfig
           [agentA; agentB] (serviceWith [containerA; containerB])
           (stopOn ["id-forta-agent-B"] [agentA; agentB]
              (serviceWith [containerA; containerB])).1
           (Err (ErrStopFailed "id-forta-agent-B" (ErrRuntime "stop failed")))
           eq_refl).
Defined.

(** Starting A when the scanner is already attached to its network and the
    attachment of the JSON-RPC proxy fails: both attachments are attempted,
    the first result is passed over, the second aborts the start of A, and
    the batch [A; B] goes on with B, which is started, recorded and
    published. *)
Lemma attach_failure_aborts_one_agent_witness :
  (startOn ["id-json-rpc"] ["id-scanner"] agentA (serviceWith [])).2
    = Err (ErrRuntime "attach failed") ∧
  attachCalls
    (trace (startOn ["id-json-rpc"] ["id-scanner"] agentA (serviceWith [])).1)
    = [("id-scanner", "nw-forta-agent-A"); ("id-json-rpc", "nw-forta-agent-A")] ∧
  containers (startOn ["id-json-rpc"] ["id-scanner"] agentA (serviceWith [])).1
    = [] ∧
  runOn ["id-json-rpc"] ["id-scanner"] [agentA; agentB] (serviceWith [])
    = runOn ["id-json-rpc"] ["id-scanner"] [agentB]
        (emit (Log (LogFailedToStartAgent (ErrRuntime "attach failed")))
           (startOn ["id-json-rpc"] ["id-scanner"] agentA (serviceWith [])).1).
Proof.
  destruct (@attach_failure_aborts_one_agent _ _
              (fakeClient ["id-json-rpc"] ["id-scanner"] []) fakeConfig
              agentA [agentB] (serviceWith [])
              (@startAgentContainer _ _
                 (fakeClient ["id-json-rpc"] ["id-scanner"] []) fakeConfig
                 agentA (serviceWith [])).1
              "nw-forta-agent-A" containerA
              ["id-forta-agent-A"] (Some ErrAlreadyExistsInNetwork)
              ["id-forta-agent-A"] (Some (ErrRuntime "attach failed"))
              eq_refl eq_refl eq_refl eq_refl)
    as (t' & Hstart & _ & Hcalls & Htable & _ & Hrest).
  unfold startOn, runOn. rewrite Hstart. simpl fst. simpl snd.
  split; [reflexivity|]. split; [|split; [exact Htable | exact Hrest]].
  vm_compute in Hstart. injection Hstart as <-. reflexivity.
Defined.

(** Running [A; B] twice on a runtime without failures, from an empty
    table. *)
Lemma run_twice_idempotent_witness :
  @RunTwiceClaim _ _ (fakeClient [] [] []) fakeConfig
    [agentA; agentB] (serviceWith []).
Proof.
  apply (@run_twice_idempotent _ _ (fakeClient [] [] []) fakeConfig).
  - repeat split.
    + intros name w. by eexists.
    + intros cfg w. by eexists.
  - apply (bool_decide_unpack _). vm_compute. exact I.
  - intros a Ha. reflexivity.
  - constructor.
Defined.

(** The specification promises one start and two publications per descriptor
    for every batch without duplicate names.  On a runtime where attaching
    the scanner fails, two runs of [A] start the container of A twice and
    publish nothing. *)
Lemma run_twice_restarts_after_failed_attach :
  NoDup (@ContainerName _ fakeConfig <$> [agentA]) ∧
  @startsFor _ fakeConfig agentA
     (trace (runTwiceOn ["id-scanner"] [agentA] (serviceWith []))) = 2%nat ∧
  @runningFor agentA
     (trace (runTwiceOn ["id-scanner"] [agentA] (serviceWith []))) = 0%nat ∧
  ¬ @RunTwiceClaim _ _ (fakeClient ["id-scanner"] [] []) fakeConfig
      [agentA] (serviceWith []).
Proof.
  split; [apply NoDup_singleton|]. split; [reflexivity|].
  split; [reflexivity|].
  intros [Hcount _]. destruct (Hcount agentA) as [Hstarts _]; [left|].
  vm_compute in Hstarts. discriminate.
Qed.

(** ** Inspection Scheduler *)

(** Cadence 10, signal 100 at instant 5, empty channel: block 90 is
    enqueued. *)
Lemma handleScannerBlock_cadence_witness :
  ∃ ins', handleScannerBlock 5 (mkScannerPayload 100) inspector10 = Some ins' ∧
    latestBlockEventTime ins' = 5 ∧
    inspectCh ins' = mkChan 1 [90] ∧
    inspectorLogs (bus_since inspector10 ins')
      = [LogTriggering 100 90; LogTriggered 100 90].
Proof.
  destruct (handleScannerBlock_cadence 5 100 inspector10)
    as (ins' & Hrun & Hclock & Hpush & _).
  - reflexivity.
  - unfold int_range. simpl. lia.
  - unfold uint64_range. lia.
  - exists ins'. split; [exact Hrun|]. split; [exact Hclock|].
    destruct Hpush as (_ & Hch & Hlog); [by split|]. by split.
Defined.

(** Cadence 10, signal 95: nothing is enqueued, the clock is updated. *)
Example handleScannerBlock_95 :
  handleScannerBlock 5 (mkScannerPayload 95) inspector10
  = Some (set_latestBlockEventTime 5 inspector10).
Proof. reflexivity. Qed.

(** Cadence 10, signal 100, block 7 still waiting: the push is given up, the
    channel keeps block 7. *)
Example handleScannerBlock_busy :
  (λ ins', (inspectCh ins', inspectorLogs (bus ins')))
    <$> handleScannerBlock 5 (mkScannerPayload 100) (inspectorPending 7)
  = Some (mkChan 1 [7], [LogTriggering 100 90; LogAlreadyBusy 100 90]).
Proof. reflexivity. Qed.

(** Cadence 10: no panic; cadence 0 (from the override): panic on signal
    100. *)
Lemma cadence_precondition_witness :
  handleScannerBlock (Minute * 11) (mkScannerPayload 100) inspector10 ≠ None ∧
  watchdogStep (Minute * 11) (BlockNumberIs 20) AtSelect inspector10 ≠ None.
Proof.
  destruct (cadence_precondition (Minute * 11) (mkScannerPayload 100)
              (BlockNumberIs 20) AtSelect inspector10) as [Hpositive _].
  - unfold int_range. simpl. lia.
  - apply Hpositive. simpl. lia.
Defined.

Example cadence_zero_panics :
  handleScannerBlock (Results := string) (Proto := string) 5
    (mkScannerPayload 100)
    (NewInspector 10 false
       (mkInspectorConfig "http://scan:8545" "http://trace:8545" "forta-proxy"
          "8545" false false (Some 0)))
  = None.
Proof. reflexivity. Qed.

(** Eleven minutes without a signal, the dial fails, block 7 still waiting:
    the watchdog is inside its send of 0; it completes once the worker has
    taken block 7. *)
Lemma watchdog_send_blocks_witness :
  watchdogStep (Minute * 11) (DialFailed (ErrRuntime "dial")) AtSelect
    (inspectorPending 7)
    = Some (AtSend 0, inspectorPending 7) ∧
  watchdogStep (Minute * 12) (DialFailed (ErrRuntime "dial")) (AtSend 0)
    (inspectorPending 7)
    = Some (AtSend 0, inspectorPending 7) ∧
  watchdogStep (Minute * 12) (DialFailed (ErrRuntime "dial")) (AtSend 0)
    inspector10
    = Some (AtSelect, inspectorPending 0).
Proof.
  destruct (watchdog_send_blocks (Minute * 11) (DialFailed (ErrRuntime "dial"))
              (inspectorPending 7) 0 eq_refl eq_refl)
    as (_ & Hblock & Hstay & Hgo).
  split; [exact Hblock|]. split.
  - apply Hstay. reflexivity.
  - apply (Hgo (Minute * 12) (DialFailed (ErrRuntime "dial")) inspector10).
    reflexivity.
Defined.

(** The specification has the watchdog drop the value and go on. *)
Lemma watchdog_push_is_not_dropped :
  ¬ WatchdogDropsClaim (Minute * 11) (DialFailed (ErrRuntime "dial"))
      (inspectorPending 7).
Proof.
  intros Hclaim. specialize (Hclaim 0 eq_refl eq_refl).
  vm_compute in Hclaim. discriminate.
Qed.

(** Request 90, three attempts that all fail: three publications, the
    terminal error logged. *)
Lemma every_attempt_publishes_witness :
  inspectionsDone
    (bus_since (inspectorPending 90)
       (inspectionWorker id inspectAlwaysFails 2 (inspectorPending 90)))
    = ["partial"; "partial"; "partial"] ∧
  inspectionsDone
    (bus_since (inspectorPending 90)
       (inspectionWorker id inspectThirdSucceeds 2 (inspectorPending 90)))
    = ["partial"; "partial"; "complete"].
Proof.
  split.
  - destruct (every_attempt_publishes id inspectAlwaysFails 2
                (inspectorPending 90) 90 (mkChan 1 []) eq_refl) as [Hall _].
    destruct Hall as [Hdone _]; [intros k _; discriminate | exact Hdone].
  - destruct (every_attempt_publishes id inspectThirdSucceeds 2
                (inspectorPending 90) 90 (mkChan 1 []) eq_refl) as [_ Hthird].
    destruct (Hthird "partial" (ErrRuntime "scan api unreachable")
                "partial" (ErrRuntime "scan api unreachable") "complete"
                (le_n 2) eq_refl eq_refl eq_refl) as [Hdone _].
    exact Hdone.
Defined.

(** The specification has no publication when every attempt fails, and one
    when the third attempt succeeds. *)
Lemma failed_attempts_are_published :
  ¬ AllFailClaim id inspectAlwaysFails 2 (inspectorPending 90) ∧
  ¬ ThirdSucceedsClaim id inspectThirdSucceeds 2 (inspectorPending 90).
Proof.
  split; intros Hclaim.
  - specialize (Hclaim 90 (mkChan 1 []) eq_refl).
    assert (Hnil : @inspectionsDone string string
              (bus_since (inspectorPending 90)
                 (inspectionWorker id inspectAlwaysFails 2
                    (inspectorPending 90))) = [])
      by (apply Hclaim; intros k _; discriminate).
    vm_compute in Hnil. discriminate.
  - specialize (Hclaim 90 (mkChan 1 []) "partial"
                  (ErrRuntime "scan api unreachable") "partial"
                  (ErrRuntime "scan api unreachable") "complete"
                  eq_refl (le_n 2) eq_refl eq_refl eq_refl).
    vm_compute in Hclaim. discriminate.
Qed.

(** Request 90 on a fresh inspector, three attempts that all fail: the
    terminal error is logged, the channel is empty, and Health still reports
    no error. *)
Lemma exhausted_retry_health_unchanged_witness :
  last (bus (inspectionWorker id inspectAlwaysFails 2 (inspectorPending 90)))
    = Some (Logged (LogFinallyFailed (ErrRuntime "scan api unreachable") 90)) ∧
  inspectCh (inspectionWorker id inspectAlwaysFails 2 (inspectorPending 90))
    = mkChan 1 [] ∧
  Health (inspectionWorker id inspectAlwaysFails 2 (inspectorPending 90))
    = [mkReport "last-error" None].
Proof.
  destruct (exhausted_retry_health_unchanged id inspectAlwaysFails 2
              (inspectorPending 90) 90 (mkChan 1 [])
              (ErrRuntime "scan api unreachable") eq_refl)
    as (Hlog & Hch & _ & Hhealth).
  - intros k _. discriminate.
  - reflexivity.
  - split; [exact Hlog|]. split; [exact Hch | exact Hhealth].
Defined.

(** The "last-error" report the specification expects after that request. *)
Lemma health_misses_terminal_error :
  ¬ HealthRecordsClaim id inspectAlwaysFails 2 (inspectorPending 90).
Proof.
  intros Hclaim.
  specialize (Hclaim 90 (mkChan 1 []) (ErrRuntime "scan api unreachable")
                eq_refl).
  assert (Hrep : @Health string string
            (inspectionWorker id inspectAlwaysFails 2 (inspectorPending 90))
          = [mkReport "last-error"
               (Some (ErrRuntime "scan api unreachable"))])
    by (apply Hclaim; [intros k _; discriminate | reflexivity]).
  vm_compute in Hrep. discriminate.
Qed.

(* ===================================================================== *)
(** * Part VII.  Further properties of the Fleet Supervisor               *)
(* ===================================================================== *)

Section SupervisionMore.
Context {W RC : Type} `{!DockerClient W} `{!ConfigPkg RC}.
Implicit Types (t : TxNodeService W RC) (payload : AgentPayload).
Implicit Types (evs : list Event) (stopped : gmap string bool).

(** ** Lookup and insertion *)

Lemma lookupContainer_app name cs1 cs2 :
  lookupContainer name (cs1 ++ cs2) =
    match lookupContainer name cs1 with
    | Some c => Some c
    | None => lookupContainer name cs2
    end.
Proof.
  induction cs1 as [|c cs1 IH]; simpl; [done|].
  by destruct (String.eqb (Container_Name c) name).
Qed.

(** X1.  After addContainerUnsafe, getContainerUnsafe still returns the record
    it returned before for every name that was recorded, also for the names
    of the added records; for a name that was not recorded it returns the
    first added record of that name, if any. *)
Theorem lookup_after_add name (cs : list DockerContainer) t :
  getContainerUnsafe name (addContainerUnsafe cs t).1 =
    match getContainerUnsafe name t with
    | Some c => Some c
    | None => lookupContainer name cs
    end.
Proof. unfold getContainerUnsafe. simpl. apply lookupContainer_app. Qed.

(** ** The calls of startAgent *)

Lemma startAgentContainer_trace agent t t1 r :
  startAgentContainer agent t = (t1, r) →
  containers t1 = containers t ∧
  scannerContainer t1 = scannerContainer t ∧
  jsonRpcContainer t1 = jsonRpcContainer t ∧
  ∃ nwID cfg (n : nat),
    Cfg_Name cfg = ContainerName agent ∧ (1 ≤ n ≤ 3)%nat ∧
    trace t1 = (trace t ++ take n (startProtocol agent nwID cfg t))%list ∧
    match r with
    | Ok (nw, c) =>
        n = 3%nat ∧ nw = nwID ∧ ∃ w, (StartContainer cfg w).2 = Ok c
    | Err _ => True
    end.
Proof.
  unfold startAgentContainer, mbind, M_bind, ensureLocalImage, check,
    client_CreatePublicNetwork, client_StartContainer, get, call.
  destruct (EnsureLocalImage _ _ _ (world t)) as [w1 [e|]]; simpl.
  { intros [= <- <-]. repeat split.
    exists "", (agentContainerConfig agent "" t), 1%nat.
    split; [done|]. split; [lia|]. done. }
  destruct (CreatePublicNetwork _ w1) as [w2 [nwID|e]]; simpl.
  2: { intros [= <- <-]. repeat split.
       exists "", (agentContainerConfig agent "" t), 2%nat.
       split; [done|]. split; [lia|]. simpl. by rewrite <- app_assoc. }
  match goal with |- context [StartContainer ?c w2] => set (cfg := c) end.
  destruct (StartContainer cfg w2) as [w3 [c|e]] eqn:Hstart; simpl.
  - intros [= <- <-]. repeat split. exists nwID, cfg, 3%nat.
    split; [done|]. split; [lia|]. split; [simpl; by rewrite <- !app_assoc|].
    split; [done|]. split; [done|]. exists w2. by rewrite Hstart.
  - intros [= <- <-]. repeat split. exists nwID, cfg, 3%nat.
    split; [done|]. split; [lia|]. split; [|done].
    simpl. by rewrite <- !app_assoc.
Qed.

Lemma attachNetworks_two a b nwID t1 t2 r :
  attachNetworks [a; b] nwID t1 = (t2, r) →
  containers t2 = containers t1 ∧
  ∃ m : nat, (1 ≤ m ≤ 2)%nat ∧
    trace t2 = (trace t1 ++ take m [CallAttachNetwork a nwID;
                                    CallAttachNetwork b nwID])%list ∧
    (r = Ok () → m = 2%nat).
Proof.
  simpl. unfold client_AttachNetwork, call.
  destruct (AttachNetwork a nwID (world t1)) as [w4 r1]. simpl.
  assert (Hsecond :
    (let '(t', r2) :=
       let '(w', r2) := AttachNetwork b nwID w4 in
       (set_world w' (emit (CallAttachNetwork b nwID)
                        (set_world w4 (emit (CallAttachNetwork a nwID) t1))),
        r2) in
     match r2 with
     | Some ErrAlreadyExistsInNetwork | None => (t', Ok ())
     | Some e => (t', Err e)
     end) = (t2, r) →
    containers t2 = containers t1 ∧
    ∃ m : nat, (1 ≤ m ≤ 2)%nat ∧
      trace t2 = (trace t1 ++ take m [CallAttachNetwork a nwID;
                                      CallAttachNetwork b nwID])%list ∧
      (r = Ok () → m = 2%nat)).
  { destruct (AttachNetwork b nwID w4) as [w5 r2].
    intros Heq. assert (t2 = set_world w5 (emit (CallAttachNetwork b nwID)
                        (set_world w4 (emit (CallAttachNetwork a nwID) t1))))
      as -> by (destruct r2 as [[| |]|]; by injection Heq).
    split; [done|]. exists 2%nat. split; [lia|]. split; [|done].
    simpl. by rewrite <- app_assoc. }
  assert (Hfirst : ∀ e,
    (set_world w4 (emit (CallAttachNetwork a nwID) t1), @Err () e) = (t2, r) →
    containers t2 = containers t1 ∧
    ∃ m : nat, (1 ≤ m ≤ 2)%nat ∧
      trace t2 = (trace t1 ++ take m [CallAttachNetwork a nwID;
                                      CallAttachNetwork b nwID])%list ∧
      (r = Ok () → m = 2%nat)).
  { intros e [= <- <-]. split; [done|]. exists 1%nat. split; [lia|]. done. }
  destruct r1 as [[| |]|]; [exact Hsecond | apply Hfirst | apply Hfirst
                            | exact Hsecond].
Qed.

(** What startAgent does to the trace and to the Fleet Table, for every
    runtime. *)
Lemma startAgent_spec agent t t' r :
  startAgent agent t = (t', r) →
  ∃ nwID cfg (n : nat),
    Cfg_Name cfg = ContainerName agent ∧ (1 ≤ n ≤ 5)%nat ∧
    trace t' = (trace t ++ take n (startProtocol agent nwID cfg t))%list ∧
    match r with
    | Ok _ => n = 5%nat ∧
              ∃ c w, (StartContainer cfg w).2 = Ok c ∧
                     containers t' = (containers t ++ [c])%list
    | Err _ => containers t' = containers t
    end.
Proof.
  unfold startAgent, mbind at 1, M_bind at 1.
  destruct (startAgentContainer agent t) as [t1 [[nw c]|e]] eqn:Hsac;
    destruct (startAgentContainer_trace _ _ _ _ Hsac)
      as (Hc & Hsc & Hjr & nwID & cfg & n & Hname & Hn & Htr & Hr).
  2: { intros [= <- <-]. exists nwID, cfg, n.
       split; [done|]. split; [lia|]. done. }
  destruct Hr as (-> & -> & w & Hstart).
  unfold mbind, M_bind, get. rewrite Hsc, Hjr.
  destruct (attachNetworks _ nwID t1) as [t2 [[]|e]] eqn:Hatt;
    destruct (attachNetworks_two _ _ _ _ _ _ Hatt) as (Hc2 & m & Hm & Htr2 & Hok).
  - intros [= <- <-]. rewrite (Hok eq_refl) in Htr2.
    exists nwID, cfg, 5%nat. split; [done|]. split; [lia|]. split.
    + simpl. rewrite Htr2, Htr. simpl. by rewrite <- app_assoc.
    + split; [done|]. exists c, w. split; [done|]. simpl. by rewrite Hc2, Hc.
  - intros [= <- <-]. exists nwID, cfg, (3 + m)%nat.
    split; [done|]. split; [lia|]. split; [|by rewrite Hc2].
    rewrite Htr2, Htr. assert (m = 1 ∨ m = 2)%nat as [-> | ->] by lia;
      simpl; by rewrite <- app_assoc.
Qed.


(** X2.  A start that fails, at whatever step, leaves the Fleet Table as it
    was; a start that succeeds appends exactly one record, the handle that
    StartContainer returned; in neither case does startAgent publish a
    status, stop a container or write a log line. *)
Theorem startAgent_table_effect agent t t' r :
  startAgent agent t = (t', r) →
  publications (new_events t t') = [] ∧
  stopCalls (new_events t t') = [] ∧
  logs (new_events t t') = [] ∧
  match r with
  | Ok _ => ∃ cfg w c, (StartContainer cfg w).2 = Ok c ∧
                       Cfg_Name cfg = ContainerName agent ∧
                       containers t' = (containers t ++ [c])%list
  | Err _ => containers t' = containers t
  end.
Proof.
  intros Hrun. destruct (startAgent_spec _ _ _ _ Hrun)
    as (nwID & cfg & n & Hname & Hn & Htr & Hr).
  rewrite (new_events_app _ _ _ Htr).
  assert (Hquiet : publications (take n (startProtocol agent nwID cfg t)) = []
                 ∧ stopCalls (take n (startProtocol agent nwID cfg t)) = []
                 ∧ logs (take n (startProtocol agent nwID cfg t)) = []).
  { do 6 (destruct n as [|n]; [done|]). lia. }
  destruct Hquiet as (-> & -> & ->). repeat split.
  destruct r as [[]|e]; [|done]. destruct Hr as (_ & c & w & Hstart & Hc).
  by exists cfg, w, c.
Qed.

(** The Fleet Table after handleAgentStop. *)
Lemma stop_error_keeps_table_aux payload t t' r :
  handleAgentStop payload t = (t', r) →
  containers t' =
    match r with
    | Err _ => containers t
    | Ok _ =>
        List.filter
          (λ c, negb (bool_decide
                        (Container_ID c ∈ stopCalls (new_events t t'))))
          (containers t)
    end.
Proof.
  intros Hrun.
  destruct (handleAgentStop_spec _ _ _ _ Hrun) as (evs & <- & _ & Hr).
  destruct r; by destruct Hr.
Qed.

(** ** Handling "run agents" on any runtime *)

Lemma startFailures_app evs1 evs2 :
  startFailures (evs1 ++ evs2) = (startFailures evs1 ++ startFailures evs2)%list.
Proof. apply omap_app. Qed.

Lemma startProtocol_quiet agent nwID cfg t (n : nat) :
  publications (take n (startProtocol agent nwID cfg t)) = [] ∧
  stopCalls (take n (startProtocol agent nwID cfg t)) = [] ∧
  startFailures (take n (startProtocol agent nwID cfg t)) = [].
Proof. do 6 (destruct n as [|n]; [done|]). done. Qed.

Lemma runAgents_accounting payload :
  ∀ t, ∃ evs, trace (runAgents payload t) = (trace t ++ evs)%list ∧
    publications evs `sublist_of` (runningStatus <$> payload) ∧
    (length (publications evs) + length (startFailures evs))%nat
      = length payload ∧
    stopCalls evs = [] ∧
    containers t `prefix_of` containers (runAgents payload t).
Proof.
  induction payload as [|a rest IH]; intros t; simpl.
  - exists []. by rewrite app_nil_r.
  - destruct (getContainerUnsafe (ContainerName a) t) as [c|].
    + edestruct IH as (evs & -> & Hsub & Hlen & Hstop & Hpre).
      exists (Log (LogAlreadyRunning (ContainerName a))
                :: Publish SubjectAgentsStatusRunning [a] :: evs).
      simpl. rewrite <- !app_assoc. split; [done|].
      split; [by apply sublist_skip|]. split; [by rewrite Hlen|]. done.
    + destruct (startAgent a t) as [t1 r] eqn:Hstart.
      destruct (startAgent_spec _ _ _ _ Hstart)
        as (nwID & cfg & n & _ & _ & Htr & Hr).
      destruct (startProtocol_quiet a nwID cfg t n) as (Hq1 & Hq2 & Hq3).
      destruct r as [[]|e].
      * destruct Hr as (_ & c & w & _ & Hc).
        edestruct IH as (evs & -> & Hsub & Hlen & Hstop & Hpre).
        exists (take n (startProtocol a nwID cfg t)
                  ++ Publish SubjectAgentsStatusRunning [a] :: evs)%list.
        simpl. rewrite Htr, <- !app_assoc.
        rewrite publications_app, startFailures_app, stopCalls_app, Hq1, Hq2,
          Hq3. simpl. split; [done|]. split; [by apply sublist_skip|].
        split; [by rewrite Hlen|]. split; [done|].
        etrans; [|exact Hpre]. simpl. rewrite Hc. by apply prefix_app_r.
      * edestruct IH as (evs & -> & Hsub & Hlen & Hstop & Hpre).
        exists (take n (startProtocol a nwID cfg t)
                  ++ Log (LogFailedToStartAgent e) :: evs)%list.
        simpl. rewrite Htr, <- !app_assoc.
        rewrite publications_app, startFailures_app, stopCalls_app, Hq1, Hq2,
          Hq3. simpl. split; [done|]. split; [by apply sublist_cons|].
        split; [lia|]. split; [done|].
        etrans; [|exact Hpre]. simpl. by rewrite Hr.
Qed.

(** X4.  On every runtime handleAgentRun returns nil and gives each descriptor
    of the request one outcome: the "running" publications, all of them for
    descriptors of the request and in its order, and the logged start
    failures add up to the length of the request.  It stops no container and
    removes no record: the old Fleet Table is an initial part of the new
    one. *)
Theorem run_accounts_for_every_descriptor payload t :
  let t' := (handleAgentRun payload t).1 in
  let evs := new_events t t' in
  (handleAgentRun payload t).2 = Ok () ∧
  publications evs `sublist_of` (runningStatus <$> payload) ∧
  (length (publications evs) + length (startFailures evs))%nat
    = length payload ∧
  stopCalls evs = [] ∧
  containers t `prefix_of` containers t'.
Proof.
  unfold handleAgentRun. simpl.
  destruct (runAgents_accounting payload
              (emit (Log (LogHandleAgentRun (length payload))) t))
    as (evs & Htr & Hsub & Hlen & Hstop & Hpre).
  erewrite new_events_app.
  2: { rewrite Htr. simpl. by rewrite <- app_assoc. }
  done.
Qed.

(** ** One record per name *)

Lemma runAgents_NoDup payload :
  NameFaithful →
  ∀ t, NoDup (tableNames t) → NoDup (tableNames (runAgents payload t)).
Proof.
  intros Hfaith. induction payload as [|a rest IH]; intros t Hnd; simpl.
  - done.
  - destruct (getContainerUnsafe (ContainerName a) t) as [c|] eqn:Hlook.
    + by apply IH.
    + destruct (startAgent a t) as [t1 r] eqn:Hstart.
      destruct (startAgent_spec _ _ _ _ Hstart)
        as (nwID & cfg & n & Hname & _ & _ & Hr).
      destruct r as [[]|e]; apply IH; unfold tableNames in *; simpl.
      * destruct Hr as (_ & c & w & Hret & ->). rewrite fmap_app.
        apply NoDup_app. split; [done|]. split; [|apply NoDup_singleton].
        intros name Hin Hin'. apply list_elem_of_singleton in Hin' as ->.
        rewrite (Hfaith _ _ _ Hret), Hname in Hin.
        by apply getContainerUnsafe_None in Hlook.
      * by rewrite Hr.
Qed.

Lemma filter_names_sublist (f : DockerContainer → bool) cs :
  (Container_Name <$> List.filter f cs) `sublist_of` (Container_Name <$> cs).
Proof.
  induction cs as [|c cs IH]; simpl; [done|].
  destruct (f c); simpl; [by apply sublist_skip | by apply sublist_cons].
Qed.

Lemma handleAgentStop_NoDup payload t :
  NoDup (tableNames t) → NoDup (tableNames (handleAgentStop payload t).1).
Proof.
  intros Hnd. destruct (handleAgentStop payload t) as [t' r] eqn:Hrun.
  pose proof (stop_error_keeps_table_aux payload t t' r Hrun) as Hr.
  unfold tableNames in *. simpl. destruct r as [[]|e]; rewrite Hr; [|done].
  eapply sublist_NoDup; [exact Hnd | apply filter_names_sublist].
Qed.

(** X5.  When the runtime's StartContainer returns handles that carry the
    requested name, no sequence of "run agents" and "stop agents" messages,
    whichever runtime calls fail on the way, makes the Fleet Table hold two
    records of one container name. *)
Theorem one_record_per_name msgs t :
  NameFaithful →
  NoDup (tableNames t) →
  NoDup (tableNames (deliverAll msgs t)).
Proof.
  intros Hfaith. revert t. induction msgs as [|[subject payload] rest IH];
    intros t Hnd; simpl; [done|].
  apply IH. destruct subject; simpl; try done.
  - by apply runAgents_NoDup.
  - by apply handleAgentStop_NoDup.
Qed.

(** ** Handling "run agents" on a runtime without failures *)



(** ** Handling "stop agents" *)

Lemma foundIDs_ext payload t t1 :
  containers t1 = containers t → foundIDs payload t1 = foundIDs payload t.
Proof. unfold foundIDs, getContainerUnsafe. by intros ->. Qed.

(** The stop calls of a stop loop that completes are those for the records
    its lookups find. *)
Lemma stopAgents_calls payload : ∀ stopped t t' stopped',
  stopAgents payload stopped t = (t', Ok stopped') →
  ∃ evs, trace t' = (trace t ++ evs)%list ∧ stopCalls evs = foundIDs payload t.
Proof.
  induction payload as [|a rest IH]; intros stopped t t' stopped'; simpl.
  - intros [= <- <-]. exists []. by rewrite app_nil_r.
  - unfold foundIDs. simpl. fold (foundIDs rest t).
    destruct (getContainerUnsafe (ContainerName a) t) as [c|] eqn:Hlook; simpl.
    + unfold client_StopContainer, call.
      destruct (StopContainer (Container_ID c) (world t)) as [w' [err|]];
        [done|].
      intros Hrest. apply IH in Hrest as (evs & Htr & Hcalls).
      exists (CallStopContainer (Container_ID c)
                :: Log (LogStopped (ContainerName a)) :: evs).
      split; [rewrite Htr; simpl; by rewrite <- !app_assoc|].
      simpl. rewrite Hcalls. by f_equal.
    + intros Hrest. apply IH in Hrest as (evs & Htr & Hcalls).
      exists (Log (LogStopSkipped (ContainerName a)) :: evs).
      split; [rewrite Htr; simpl; by rewrite <- !app_assoc|].
      simpl. by rewrite Hcalls.
Qed.

Lemma handleAgentStop_calls payload t t' :
  handleAgentStop payload t = (t', Ok ()) →
  stopCalls (new_events t t') = foundIDs payload t.
Proof.
  unfold handleAgentStop.
  destruct (stopAgents payload ∅ t) as [t1 [stopped|err]] eqn:Hloop; [|done].
  apply stopAgents_calls in Hloop as (evs & Htr & Hcalls).
  destruct (0 <? length payload)%nat; intros [= <-].
  - erewrite new_events_app.
    2: { simpl. rewrite Htr. by rewrite <- app_assoc. }
    rewrite stopCalls_app, Hcalls. simpl. by rewrite app_nil_r.
  - by erewrite new_events_app by (simpl; exact Htr).
Qed.

Lemma handleAgentStop_table payload t t' :
  handleAgentStop payload t = (t', Ok ()) →
  containers t' =
    List.filter
      (λ c, negb (bool_decide (Container_ID c ∈ foundIDs payload t)))
      (containers t).
Proof.
  intros Hrun. rewrite <- (handleAgentStop_calls _ _ _ Hrun).
  exact (stop_error_keeps_table_aux _ _ _ _ Hrun).
Qed.

(** X8.  The Fleet Table after a stop request that returns nil is determined
    by the request and the table before: the records are removed whose ID is
    that of a record found under a name of the request (removal is by ID, so
    a record of another name with such an ID goes too), every other record
    stays, in its place. *)
Theorem stop_removes_by_id payload t t' :
  handleAgentStop payload t = (t', Ok ()) →
  containers t' =
    List.filter
      (λ c, negb (bool_decide (Container_ID c ∈ foundIDs payload t)))
      (containers t).
Proof. apply handleAgentStop_table. Qed.

Lemma NoDup_names_inj (cs : list DockerContainer) c1 c2 :
  NoDup (Container_Name <$> cs) → c1 ∈ cs → c2 ∈ cs →
  Container_Name c1 = Container_Name c2 → c1 = c2.
Proof.
  induction cs as [|c cs IH]; simpl; intros Hnd H1 H2 Heq.
  - by apply elem_of_nil in H1.
  - apply NoDup_cons in Hnd as [Hnotin Hnd].
    apply elem_of_cons in H1 as [-> | H1]; apply elem_of_cons in H2 as [-> | H2].
    + done.
    + exfalso. apply Hnotin. rewrite Heq. by apply list_elem_of_fmap_2.
    + exfalso. apply Hnotin. rewrite <- Heq. by apply list_elem_of_fmap_2.
    + by apply IH.
Qed.

Lemma foundIDs_elem payload t a c :
  a ∈ payload → getContainerUnsafe (ContainerName a) t = Some c →
  Container_ID c ∈ foundIDs payload t.
Proof.
  intros Ha Hlook. unfold foundIDs. apply list_elem_of_omap.
  exists a. split; [done|]. by rewrite Hlook.
Qed.

(** X7.  In a Fleet Table without duplicate names, after a stop request that
    returns nil no descriptor of the request has a record any more. *)
Theorem stop_unrecords_the_request payload t t' a :
  NoDup (tableNames t) →
  handleAgentStop payload t = (t', Ok ()) →
  a ∈ payload →
  getContainerUnsafe (ContainerName a) t' = None.
Proof.
  intros Hnd Hrun Ha.
  destruct (getContainerUnsafe (ContainerName a) t') as [c'|] eqn:Hafter;
    [|done].
  exfalso. apply lookupContainer_Some in Hafter as [Hin' Hname'].
  rewrite (handleAgentStop_table _ _ _ Hrun) in Hin'.
  apply list_elem_of_In, List.filter_In in Hin' as [Hin Hkept].
  apply list_elem_of_In in Hin.
  apply negb_true_iff, bool_decide_eq_false in Hkept. apply Hkept.
  destruct (getContainerUnsafe_is_Some (ContainerName a) t) as [c Hlook].
  { rewrite <- Hname'. by apply list_elem_of_fmap_2. }
  pose proof (lookupContainer_Some _ _ _ Hlook) as [Hc Hname].
  assert (c = c') as <-.
  { apply (NoDup_names_inj (containers t)); [done..|congruence]. }
  by eapply foundIDs_elem.
Qed.

Lemma stopAgents_absent payload : ∀ stopped t,
  (∀ a, a ∈ payload → getContainerUnsafe (ContainerName a) t = None) →
  ∃ t1, stopAgents payload stopped t = (t1, Ok stopped) ∧
    world t1 = world t ∧ containers t1 = containers t ∧
    trace t1 = (trace t ++ ((λ a, Log (LogStopSkipped (ContainerName a)))
                              <$> payload))%list.
Proof.
  induction payload as [|a rest IH]; intros stopped t Habs; simpl.
  - exists t. by rewrite app_nil_r.
  - rewrite (Habs a) by left.
    edestruct (IH stopped) as (t1 & -> & Hw & Hc & Htr).
    { intros b Hb. unfold getContainerUnsafe. simpl. apply Habs. by right. }
    exists t1. split; [done|]. split; [done|]. split; [done|].
    rewrite Htr. simpl. by rewrite <- app_assoc.
Qed.

Lemma filter_all (f : DockerContainer → bool) cs :
  (∀ c, c ∈ cs → f c = true) → List.filter f cs = cs.
Proof.
  induction cs as [|c cs IH]; simpl; intros Hall; [done|].
  rewrite (Hall c) by left. f_equal. apply IH. intros c' Hc'. apply Hall.
  by right.
Qed.

(** X10.  A stop request none of whose descriptors is recorded (the empty
    request included) makes no runtime call, leaves the runtime and the Fleet
    Table as they were, logs one skip per descriptor and returns nil; the
    request is published on "agents:status:stopped" unless it is empty. *)
Theorem stop_of_unrecorded_agents payload t :
  (∀ a, a ∈ payload → getContainerUnsafe (ContainerName a) t = None) →
  ∃ t', handleAgentStop payload t = (t', Ok ()) ∧
    world t' = world t ∧
    containers t' = containers t ∧
    new_events t t' =
      (((λ a, Log (LogStopSkipped (ContainerName a))) <$> payload)
       ++ match payload with
          | [] => []
          | _ => [Publish SubjectAgentsStatusStopped payload]
          end)%list.
Proof.
  intros Habs. unfold handleAgentStop.
  destruct (stopAgents_absent payload ∅ t Habs) as (t1 & -> & Hw & Hc & Htr).
  assert (Hkeep : List.filter
            (λ c, negb (isStopped ∅ (Container_ID c))) (containers t1)
          = containers t).
  { rewrite Hc. apply filter_all. intros c _. by rewrite isStopped_empty. }
  rewrite Hkeep. destruct payload as [|a rest]; simpl.
  - eexists. split; [done|]. split; [done|]. split; [done|].
    apply new_events_app. simpl. by rewrite Htr.
  - eexists. split; [done|]. split; [done|]. split; [done|].
    apply new_events_app. simpl. rewrite Htr. simpl. by rewrite <- app_assoc.
Qed.

(** The stop loop that gives up. *)
Lemma stopAgents_error payload : ∀ stopped t t' e,
  stopAgents payload stopped t = (t', Err e) →
  ∃ id cause ids w evs,
    e = ErrStopFailed id cause ∧
    (StopContainer id w).2 = Some cause ∧
    trace t' = (trace t ++ evs)%list ∧
    stopCalls evs = (ids ++ [id])%list ∧
    (ids ++ [id])%list `prefix_of` foundIDs payload t.
Proof.
  induction payload as [|a rest IH]; intros stopped t t' e; simpl; [done|].
  unfold foundIDs. simpl. fold (foundIDs rest t).
  destruct (getContainerUnsafe (ContainerName a) t) as [c|] eqn:Hlook; simpl.
  - unfold client_StopContainer, call.
    destruct (StopContainer (Container_ID c) (world t)) as [w' [err|]] eqn:Hstop.
    + intros [= <- <-].
      exists (Container_ID c), err, [], (world t),
        [CallStopContainer (Container_ID c)].
      split; [done|]. split; [by rewrite Hstop|]. split; [done|].
      split; [done|]. simpl. by apply prefix_cons, prefix_nil.
    + intros Hrest.
      apply IH in Hrest as (id & cause & ids & w & evs & -> & Hfail & Htr
                            & Hcalls & Hpre).
      exists id, cause, (Container_ID c :: ids), w,
        (CallStopContainer (Container_ID c)
           :: Log (LogStopped (ContainerName a)) :: evs).
      split; [done|]. split; [done|].
      split; [rewrite Htr; simpl; by rewrite <- !app_assoc|].
      split; [simpl; by rewrite Hcalls|]. simpl. by apply prefix_cons.
  - intros Hrest.
    apply IH in Hrest as (id & cause & ids & w & evs & -> & Hfail & Htr
                          & Hcalls & Hpre).
    exists id, cause, ids, w, (Log (LogStopSkipped (ContainerName a)) :: evs).
    split; [done|]. split; [done|].
    split; [rewrite Htr; simpl; by rewrite <- !app_assoc|].
    split; [by simpl|]. done.
Qed.

(** X22.  An error of handleAgentStop always is the "failed to stop
    container" error of one StopContainer call that failed, naming the
    container of that call; that call is the last stop call of the request,
    and the stop calls made are an initial part of the calls the request asks
    for, in its order. *)
Theorem stop_error_names_the_container payload t t' e :
  handleAgentStop payload t = (t', Err e) →
  ∃ id cause ids w,
    e = ErrStopFailed id cause ∧
    (StopContainer id w).2 = Some cause ∧
    stopCalls (new_events t t') = (ids ++ [id])%list ∧
    (ids ++ [id])%list `prefix_of` foundIDs payload t.
Proof.
  unfold handleAgentStop.
  destruct (stopAgents payload ∅ t) as [t1 [stopped|err]] eqn:Hloop.
  { by destruct (0 <? length payload)%nat. }
  intros [= <- <-].
  apply stopAgents_error in Hloop
    as (id & cause & ids & w & evs & -> & Hfail & Htr & Hcalls & Hpre).
  exists id, cause, ids, w. split; [done|]. split; [done|].
  by rewrite (new_events_app _ _ _ Htr).
Qed.

(** ** Run, then stop *)





End SupervisionMore.

(* ===================================================================== *)
(** * Part VIII.  Further properties of the Inspection Scheduler          *)
(* ===================================================================== *)

Section InspectionMore.
Context {Results Proto : Type} (ToProtoInspectionResults : Results → Proto).
Implicit Types (ins : @Inspector Results Proto).
Implicit Types (Inspect : nat → InspectionConfig → Results * option error).

#[local] Abbreviation toProto' := ToProtoInspectionResults.

(** ** The retry loop in general *)

(** The attempts of Retry: [n] failures followed by one more attempt, which
    is the last either because it succeeds or because the budget is spent. *)
Lemma Retry_spec Inspect blockNum icfg :
  ∀ granted attempt ins,
    inspectionConfig blockNum ins = icfg →
    ∃ n : nat, (n ≤ granted)%nat ∧
      (∀ k, (attempt ≤ k < attempt + n)%nat → (Inspect k icfg).2 ≠ None) ∧
      Retry (λ a, runInspection toProto' (Inspect a) blockNum) granted attempt ins
      = (set_bus (bus ins ++ flat_map (λ k, attemptEvents toProto' (Inspect k icfg))
                               (seq attempt (S n))) ins,
         (Inspect (attempt + n)%nat icfg).2) ∧
      ((Inspect (attempt + n)%nat icfg).2 ≠ None → n = granted).
Proof.
  induction granted as [|g IH]; intros attempt ins Hcfg; cbn [Retry].
  - exists 0%nat. rewrite Nat.add_0_r. split; [lia|]. split; [lia|].
    split; [|done]. rewrite runInspection_eq, Hcfg. cbn [seq flat_map].
    rewrite app_nil_r. by destruct (Inspect attempt icfg).2.
  - rewrite runInspection_eq, Hcfg.
    destruct (Inspect attempt icfg).2 as [e|] eqn:Hr.
    + edestruct (IH (S attempt)) as (n & Hn & Hfail & -> & Hlast);
        [exact Hcfg|].
      exists (S n). replace (attempt + S n)%nat with (S attempt + n)%nat by lia.
      split; [lia|]. split.
      { intros k Hk. destruct (decide (k = attempt)) as [->|];
          [by rewrite Hr | apply Hfail; lia]. }
      split; [|intros Hne; f_equal; by apply Hlast].
      f_equal. unfold set_bus. cbn [bus cfg lastErr inspectEvery inspectTrace
        inspectCh latestBlockEventTime seq flat_map]. by rewrite <- app_assoc.
    + exists 0%nat. rewrite Nat.add_0_r, Hr. split; [lia|]. split; [lia|].
      split; [|done]. cbn [seq flat_map]. by rewrite app_nil_r.
Qed.

(** X11.  For a request drained from the channel and any behaviour of the
    inspection routine, the worker makes at least one and at most
    granted + 1 attempts, stops at the first attempt that succeeds, and
    publishes to "inspection:done" exactly the results of the attempts it
    made, in order.  It logs the terminal error exactly when the last
    attempt failed, which happens only with the budget spent; the request
    does not go back into the channel. *)
Theorem worker_attempts Inspect granted ins blockNum ch :
  chan_recv (inspectCh ins) = Some (blockNum, ch) →
  let icfg := inspectionConfig blockNum ins in
  let ins' := inspectionWorker toProto' Inspect granted ins in
  let evs := bus_since ins ins' in
  ∃ n : nat, (n ≤ granted)%nat ∧
    (∀ k, (k < n)%nat → (Inspect k icfg).2 ≠ None) ∧
    inspectionsDone evs = (λ k, toProto' (Inspect k icfg).1) <$> seq 0 (S n) ∧
    inspectCh ins' = ch ∧
    match (Inspect n icfg).2 with
    | Some e => n = granted ∧
                last (bus ins') = Some (Logged (LogFinallyFailed e blockNum))
    | None => ∀ e b, LogFinallyFailed e b ∉ inspectorLogs evs
    end.
Proof.
  intros Hrecv icfg ins' evs. subst ins' evs. unfold inspectionWorker.
  rewrite Hrecv.
  destruct (Retry_spec Inspect blockNum icfg granted 0 (set_inspectCh ch ins)
              eq_refl) as (n & Hn & Hfail & -> & Hlast).
  simpl (0 + n)%nat in *. exists n. split; [done|].
  split; [intros k Hk; apply Hfail; lia|].
  set (attempts := flat_map _ _).
  destruct (Inspect n icfg).2 as [e|] eqn:Hr.
  - rewrite (bus_since_app _ _
               (attempts ++ [Logged (LogFinallyFailed e blockNum)])).
    2: { unfold record, set_bus.
         cbn [bus cfg lastErr inspectEvery inspectTrace inspectCh
              latestBlockEventTime set_inspectCh].
         by rewrite <- app_assoc. }
    rewrite inspectionsDone_app. subst attempts.
    rewrite (inspectionsDone_attempts toProto' (λ k, Inspect k icfg)).
    cbn [inspectionsDone omap]. rewrite app_nil_r.
    split; [done|]. split; [done|]. split; [by apply Hlast|].
    unfold record, set_bus. cbn [bus]. by rewrite last_snoc.
  - rewrite (bus_since_app _ _ attempts) by done. subst attempts.
    rewrite (inspectionsDone_attempts toProto' (λ k, Inspect k icfg)).
    split; [done|]. split; [done|]. intros e b.
    apply (inspectorLogs_attempts toProto' (λ k, Inspect k icfg)).
Qed.

(** ** What the three activities leave alone *)

(** The parts of the inspector that no activity writes, and the bound of the
    channel. *)
Lemma chan_send_bound v ch ch' :
  chan_send v ch = Some ch' →
  chan_cap ch' = chan_cap ch ∧
  (length (chan_buf ch') ≤ chan_cap ch')%nat.
Proof.
  unfold chan_send, chan_full.
  destruct (chan_cap ch <=? length (chan_buf ch))%nat eqn:Hfull; [done|].
  intros [= <-]. simpl. split; [done|]. rewrite length_app. simpl.
  apply Nat.leb_gt in Hfull. lia.
Qed.

Lemma handleScannerBlock_frame now payload ins ins' :
  handleScannerBlock now payload ins = Some ins' →
  cfg ins' = cfg ins ∧ lastErr ins' = lastErr ins ∧
  inspectEvery ins' = inspectEvery ins ∧ inspectTrace ins' = inspectTrace ins ∧
  latestBlockEventTime ins' = now ∧
  chan_cap (inspectCh ins') = chan_cap (inspectCh ins) ∧
  ((length (chan_buf (inspectCh ins)) ≤ chan_cap (inspectCh ins))%nat →
   (length (chan_buf (inspectCh ins')) ≤ chan_cap (inspectCh ins'))%nat).
Proof.
  unfold handleScannerBlock. simpl.
  destruct (0 <? LatestBlockInput payload); simpl.
  2: { intros [= <-]. by repeat split. }
  destruct (go_rem _ _) as [r|]; [|done]. simpl.
  destruct (r =? 0); [|intros [= <-]; by repeat split].
  destruct (chan_send _ (inspectCh ins)) as [ch|] eqn:Hsend;
    intros [= <-]; simpl; [|by repeat split].
  apply chan_send_bound in Hsend as [Hcap Hlen]. by repeat split.
Qed.

Lemma watchdogSend_frame v ins pc' ins' :
  watchdogSend v ins = (pc', ins') →
  cfg ins' = cfg ins ∧ lastErr ins' = lastErr ins ∧
  inspectEvery ins' = inspectEvery ins ∧ inspectTrace ins' = inspectTrace ins ∧
  bus ins' = bus ins ∧
  latestBlockEventTime ins' = latestBlockEventTime ins ∧
  chan_cap (inspectCh ins') = chan_cap (inspectCh ins) ∧
  ((length (chan_buf (inspectCh ins)) ≤ chan_cap (inspectCh ins))%nat →
   (length (chan_buf (inspectCh ins')) ≤ chan_cap (inspectCh ins'))%nat).
Proof.
  unfold watchdogSend.
  destruct (chan_send v (inspectCh ins)) as [ch|] eqn:Hsend;
    intros [= <- <-]; simpl; [|by repeat split].
  apply chan_send_bound in Hsend as [Hcap Hlen]. by repeat split.
Qed.

Lemma watchdogStep_frame now rpc pc ins pc' ins' :
  watchdogStep now rpc pc ins = Some (pc', ins') →
  cfg ins' = cfg ins ∧ lastErr ins' = lastErr ins ∧
  inspectEvery ins' = inspectEvery ins ∧ inspectTrace ins' = inspectTrace ins ∧
  bus ins' = bus ins ∧
  latestBlockEventTime ins' = latestBlockEventTime ins ∧
  chan_cap (inspectCh ins') = chan_cap (inspectCh ins) ∧
  ((length (chan_buf (inspectCh ins)) ≤ chan_cap (inspectCh ins))%nat →
   (length (chan_buf (inspectCh ins')) ≤ chan_cap (inspectCh ins'))%nat).
Proof.
  unfold watchdogStep. destruct pc as [|v].
  - destruct (timeoutDecision now rpc ins) as [[v|]|]; simpl; [| |done].
    + intros [= Hsend]. by apply watchdogSend_frame in Hsend.
    + intros [= <- <-]. by repeat split.
  - intros [= Hsend]. by apply watchdogSend_frame in Hsend.
Qed.

Lemma inspectionWorker_frame Inspect granted ins :
  let ins' := inspectionWorker toProto' Inspect granted ins in
  cfg ins' = cfg ins ∧ lastErr ins' = lastErr ins ∧
  inspectEvery ins' = inspectEvery ins ∧ inspectTrace ins' = inspectTrace ins ∧
  latestBlockEventTime ins' = latestBlockEventTime ins ∧
  chan_cap (inspectCh ins') = chan_cap (inspectCh ins) ∧
  ((length (chan_buf (inspectCh ins)) ≤ chan_cap (inspectCh ins))%nat →
   (length (chan_buf (inspectCh ins')) ≤ chan_cap (inspectCh ins'))%nat).
Proof.
  unfold inspectionWorker, chan_recv.
  destruct (chan_buf (inspectCh ins)) as [|blockNum rest] eqn:Hbuf;
    [by rewrite Hbuf|].
  destruct (Retry_spec Inspect blockNum
              (inspectionConfig blockNum ins) granted 0
              (set_inspectCh (mkChan (chan_cap (inspectCh ins)) rest) ins)
              eq_refl) as (n & _ & _ & -> & _).
  destruct (Inspect (0 + n)%nat _).2; simpl; repeat split; lia.
Qed.

Lemma perform_frame a pc ins pc' ins' :
  perform toProto' a (pc, ins) = Some (pc', ins') →
  lastErr ins' = lastErr ins ∧
  inspectEvery ins' = inspectEvery ins ∧
  chan_cap (inspectCh ins') = chan_cap (inspectCh ins) ∧
  ((length (chan_buf (inspectCh ins)) ≤ chan_cap (inspectCh ins))%nat →
   (length (chan_buf (inspectCh ins')) ≤ chan_cap (inspectCh ins'))%nat).
Proof.
  destruct a as [now payload|now rpc|Inspect granted]; simpl.
  - destruct (handleScannerBlock now payload ins) as [ins1|] eqn:Hrun; [|done].
    intros [= <- <-]. apply handleScannerBlock_frame in Hrun. tauto.
  - intros Hrun. apply watchdogStep_frame in Hrun. tauto.
  - intros [= <- <-]. pose proof (inspectionWorker_frame Inspect granted ins).
    simpl in *. tauto.
Qed.

Lemma performAll_frame acts : ∀ pc ins pc' ins',
  performAll toProto' acts (pc, ins) = Some (pc', ins') →
  lastErr ins' = lastErr ins ∧
  inspectEvery ins' = inspectEvery ins ∧
  chan_cap (inspectCh ins') = chan_cap (inspectCh ins) ∧
  ((length (chan_buf (inspectCh ins)) ≤ chan_cap (inspectCh ins))%nat →
   (length (chan_buf (inspectCh ins')) ≤ chan_cap (inspectCh ins'))%nat).
Proof.
  induction acts as [|a rest IH]; intros pc ins pc' ins'; simpl.
  - intros [= <- <-]. tauto.
  - destruct (perform toProto' a (pc, ins)) as [[pc1 ins1]|] eqn:Hstep;
      [|done]. simpl.
    intros Hrest. apply perform_frame in Hstep. apply IH in Hrest.
    destruct Hstep as (E1 & I1 & C1 & L1), Hrest as (E2 & I2 & C2 & L2).
    split; [congruence|]. split; [congruence|]. split; [congruence|].
    intros Hlen. by apply L2, L1.
Qed.

(** X12.  Whatever block messages arrive and however the watchdog and the
    worker are scheduled, the channel made by NewInspector keeps its capacity
    of one and never holds more than one block number. *)
Theorem at_most_one_pending acts chainInterval chainEnableTrace c pc ins :
  performAll toProto' acts
    (AtSelect, NewInspector chainInterval chainEnableTrace c) = Some (pc, ins) →
  chan_cap (inspectCh ins) = 1%nat ∧
  (length (chan_buf (inspectCh ins)) ≤ 1)%nat.
Proof.
  intros Hrun. apply performAll_frame in Hrun as (_ & _ & Hcap & Hlen).
  simpl in Hcap, Hlen. rewrite Hcap in Hlen. split; [done|]. apply Hlen. lia.
Qed.

(** X13.  No activity of the inspector writes its error tracker: after any
    sequence of block messages, watchdog and worker schedulings, Health
    returns the report it returned before. *)
Theorem health_never_changes acts pc ins pc' ins' :
  performAll toProto' acts (pc, ins) = Some (pc', ins') →
  Health ins' = Health ins.
Proof.
  intros Hrun. apply performAll_frame in Hrun as (Herr & _).
  unfold Health. by rewrite Herr.
Qed.

(** ** No panic with a positive cadence *)

Lemma positive_cadence_nonzero ins :
  0 < inspectEvery ins → int_range (inspectEvery ins) →
  (uint64 (inspectEvery ins) =? 0) = false.
Proof.
  unfold int_range, uint64. intros Hpos Hint.
  rewrite Z.mod_small by lia. apply Z.eqb_neq. lia.
Qed.

Lemma perform_total a pc ins :
  0 < inspectEvery ins → int_range (inspectEvery ins) →
  is_Some (perform toProto' a (pc, ins)).
Proof.
  intros Hpos Hint. pose proof (positive_cadence_nonzero ins Hpos Hint) as Hne.
  destruct a as [now payload|now rpc|Inspect granted]; simpl; [| |by eexists].
  - unfold handleScannerBlock, go_rem. simpl. rewrite Hne.
    destruct (0 <? LatestBlockInput payload); simpl; [|by eexists].
    destruct (LatestBlockInput payload `mod` _ =? 0); simpl; [|by eexists].
    destruct (chan_send _ _); by eexists.
  - unfold watchdogStep, timeoutDecision, go_rem. rewrite Hne.
    destruct pc; [|by eexists].
    destruct (_ <? now); simpl; [|by eexists].
    destruct rpc as [e|e|blockNum]; simpl; [by eexists..|].
    destruct (blockNum `mod` _ =? 0); by eexists.
Qed.

(** X14.  An inspector whose cadence is positive never panics: every sequence
    of block messages, watchdog and worker schedulings runs to its end. *)
Theorem positive_cadence_never_panics acts pc ins :
  0 < inspectEvery ins → int_range (inspectEvery ins) →
  is_Some (performAll toProto' acts (pc, ins)).
Proof.
  revert pc ins. induction acts as [|a rest IH]; intros pc ins Hpos Hint;
    simpl; [by eexists|].
  destruct (perform_total a pc ins Hpos Hint) as [[pc1 ins1] Hstep].
  rewrite Hstep. simpl. apply perform_frame in Hstep as (_ & Hc & _).
  apply IH; by rewrite Hc.
Qed.

(** ** The handler and the watchdog *)

(** X15.  A block message resets the watchdog: for ten minutes after the
    handler has run, a tick of the watchdog does nothing, whatever the chain
    RPC would answer. *)
Theorem block_message_silences_watchdog now payload ins ins1 now' rpc :
  handleScannerBlock now payload ins = Some ins1 →
  now' <= now + blockEventWaitTimeout →
  watchdogStep now' rpc AtSelect ins1 = Some (AtSelect, ins1).
Proof.
  intros Hrun Hsoon.
  apply handleScannerBlock_frame in Hrun as (_ & _ & _ & _ & Hclock & _).
  unfold watchdogStep, timeoutDecision. rewrite Hclock.
  by rewrite (proj2 (Z.ltb_ge _ _)) by done.
Qed.

(** X16.  A negative cadence disables the block-driven trigger without any
    error: the conversion to uint64 turns it into 2^64 + cadence, and no block
    number below that value is a positive multiple of it, so the handler only
    updates the watchdog clock. *)
Theorem negative_cadence_never_triggers now B ins :
  inspectEvery ins < 0 → int_range (inspectEvery ins) →
  uint64_range B → B < 2 ^ 64 + inspectEvery ins →
  handleScannerBlock now (mkScannerPayload B) ins
  = Some (set_latestBlockEventTime now ins).
Proof.
  unfold int_range, uint64_range. intros Hneg Hint HB Hsmall.
  assert (Hconv : uint64 (inspectEvery ins) = 2 ^ 64 + inspectEvery ins).
  { unfold uint64.
    replace (inspectEvery ins) with ((2 ^ 64 + inspectEvery ins) + (-1) * 2 ^ 64)
      at 1 by lia.
    rewrite Z_mod_plus_full. apply Z.mod_small. lia. }
  unfold handleScannerBlock, go_rem. simpl. rewrite Hconv.
  destruct (0 <? B) eqn:Hpos; simpl; [|done]. apply Z.ltb_lt in Hpos.
  rewrite (proj2 (Z.eqb_neq _ 0)) by lia. simpl.
  rewrite Z.mod_small by lia. by rewrite (proj2 (Z.eqb_neq B 0)) by lia.
Qed.

(** ** From the block message to the inspection *)

Lemma handleScannerBlock_idle now B ins :
  0 < inspectEvery ins → int_range (inspectEvery ins) → uint64_range B →
  0 < B → B mod inspectEvery ins = 0 →
  chan_full (inspectCh ins) = false →
  let target := B - inspectEvery ins in
  handleScannerBlock now (mkScannerPayload B) ins
  = Some (record (Logged (LogTriggered B target))
            (set_inspectCh
               (mkChan (chan_cap (inspectCh ins))
                       (chan_buf (inspectCh ins) ++ [target]))
               (record (Logged (LogTriggering B target))
                  (set_latestBlockEventTime now ins)))).
Proof.
  intros Hpos Hint HB HposB Hmod Hroom target.
  unfold int_range in Hint. unfold uint64_range in HB.
  assert (Hle : inspectEvery ins <= B).
  { apply Z.divide_pos_le; [done|]. apply Z.mod_divide; [lia | done]. }
  unfold handleScannerBlock, go_rem. simpl.
  assert (Hconv : uint64 (inspectEvery ins) = inspectEvery ins)
    by (unfold uint64; apply Z.mod_small; lia).
  rewrite Hconv, (proj2 (Z.eqb_neq _ 0)) by lia.
  rewrite (proj2 (Z.ltb_lt 0 B)) by done. simpl.
  rewrite Hmod. simpl.
  assert (Hsub : uint64 (B - inspectEvery ins) = target)
    by (unfold uint64; apply Z.mod_small; lia).
  rewrite Hsub. unfold chan_send. simpl. by rewrite Hroom.
Qed.

(** X17.  With a positive cadence c and an empty channel, a block message
    whose block number B is a positive multiple of c leads the worker, at
    its next scheduling, to call the inspection routine for block B - c; the
    result of that first attempt is the first message published to
    "inspection:done", and the channel is empty again. *)
Theorem block_message_reaches_inspection now B ins Inspect granted :
  0 < inspectEvery ins → int_range (inspectEvery ins) → uint64_range B →
  0 < B → B mod inspectEvery ins = 0 →
  chan_buf (inspectCh ins) = [] → (0 < chan_cap (inspectCh ins))%nat →
  ∃ ins1, handleScannerBlock now (mkScannerPayload B) ins = Some ins1 ∧
    let icfg := inspectionConfig (B - inspectEvery ins) ins in
    let ins2 := inspectionWorker toProto' Inspect granted ins1 in
    BlockNumber icfg = B - inspectEvery ins ∧
    head (inspectionsDone (bus_since ins1 ins2))
      = Some (toProto' (Inspect 0%nat icfg).1) ∧
    inspectCh ins2 = inspectCh ins.
Proof.
  intros Hpos Hint HB HposB Hmod Hempty Hcap.
  assert (Hroom : chan_full (inspectCh ins) = false).
  { unfold chan_full. rewrite Hempty. simpl. apply Nat.leb_gt. lia. }
  eexists. split; [by apply handleScannerBlock_idle|].
  split; [done|]. unfold inspectionWorker, chan_recv.
  cbn [inspectCh record set_bus set_inspectCh chan_buf chan_cap].
  rewrite Hempty. cbn [app].
  set (target := B - inspectEvery ins).
  match goal with |- context [Retry _ granted 0%nat ?i] => set (ins0 := i) end.
  destruct (Retry_spec Inspect target (inspectionConfig target ins) granted 0
              ins0 eq_refl) as (n & _ & _ & -> & _).
  set (attempts := flat_map _ _).
  assert (Hhead : head (inspectionsDone attempts)
                  = Some (toProto' (Inspect 0%nat (inspectionConfig target ins)).1)).
  { subst attempts.
    by rewrite (inspectionsDone_attempts toProto'
                  (λ k, Inspect k (inspectionConfig target ins))). }
  clearbody attempts.
  assert (Hch : mkChan (chan_cap (inspectCh ins)) [] = inspectCh ins).
  { destruct (inspectCh ins) as [cap buf]. simpl in *. by subst buf. }
  destruct (Inspect (0 + n)%nat _).2 as [e|].
  - rewrite (bus_since_app _ _
               (attempts ++ [Logged (LogFinallyFailed e target)])).
    2: { unfold ins0. simpl. by rewrite <- !app_assoc. }
    rewrite inspectionsDone_app. cbn [inspectionsDone omap].
    rewrite app_nil_r. split; [exact Hhead | exact Hch].
  - rewrite (bus_since_app _ _ attempts) by (unfold ins0; by simpl).
    split; [exact Hhead | exact Hch].
Qed.

(** ** A pending request *)

(** X23.  While the channel is full, neither a block message nor a
    scheduling of the watchdog changes it: a pending block number is never
    replaced or dropped by a producer, only the worker takes it out. *)
Theorem producers_keep_pending a pc ins pc' ins' :
  chan_full (inspectCh ins) = true →
  (∀ Inspect granted, a ≠ WorkerRuns Inspect granted) →
  perform toProto' a (pc, ins) = Some (pc', ins') →
  inspectCh ins' = inspectCh ins.
Proof.
  intros Hfull Hproducer.
  destruct a as [now payload|now rpc|Inspect granted]; simpl.
  - unfold handleScannerBlock. simpl.
    destruct (0 <? LatestBlockInput payload); simpl; [|by intros [= <- <-]].
    destruct (go_rem _ _) as [r|]; [|done]. simpl.
    destruct (r =? 0); [|by intros [= <- <-]].
    unfold chan_send. simpl. rewrite Hfull. by intros [= <- <-].
  - unfold watchdogStep, watchdogSend, chan_send. rewrite Hfull.
    destruct pc as [|v]; [|by intros [= <- <-]].
    destruct (timeoutDecision now rpc ins) as [[v|]|]; simpl;
      [by intros [= <- <-] | by intros [= <- <-] | done].
  - by destruct (Hproducer Inspect granted).
Qed.

End InspectionMore.

(* ===================================================================== *)
(** * Part IX.  The agent server mock and the version script              *)
(* ===================================================================== *)

(** X18.  For a request whose event, alert and network are all present,
    EvaluateAlert answers SUCCESS with at most one finding, and with the
    trace finding exactly when the alert metadata maps "containerTraceSupported"
    to "1" and the chain ID is "1"; metadata without that key gives no
    finding. *)
Theorem EvaluateAlert_finding req event alert network :
  Request_Event req = Some event →
  Event_Alert event = Some alert →
  Event_Network event = Some network →
  ∃ resp, EvaluateAlert (Some req) = Some resp ∧
    Response_Status resp = ResponseStatus_SUCCESS ∧
    (Response_Findings resp = [traceFinding] ∨ Response_Findings resp = []) ∧
    (Response_Findings resp = [traceFinding]
     ↔ Alert_Metadata alert !! "containerTraceSupported" = Some "1"
       ∧ Network_ChainId network = "1").
Proof.
  intros Hev Hal Hnet. unfold EvaluateAlert. simpl. rewrite Hev. simpl.
  rewrite Hal. simpl. rewrite Hnet. simpl. eexists. split; [done|].
  split; [done|]. simpl. unfold map_get.
  destruct (String.eqb_spec
              (default "" (Alert_Metadata alert !! "containerTraceSupported"))
              "1") as [Htrace|Htrace];
    destruct (String.eqb_spec (Network_ChainId network) "1") as [Hchain|Hchain];
    simpl.
  - split; [by left|]. split; [intros _|done]. split; [|done].
    by destruct (Alert_Metadata alert !! "containerTraceSupported") as [v|];
      simpl in Htrace; subst.
  - split; [by right|]. split; [done | tauto].
  - split; [by right|]. split; [done|]. intros [Hkey _]. exfalso.
    apply Htrace. by rewrite Hkey.
  - split; [by right|]. split; [done | tauto].
Qed.

(** X19.  EvaluateAlert dereferences the event, the alert and the network of
    the request without a nil check: it panics exactly when the request, its
    event, the alert or the network is nil. *)
Theorem EvaluateAlert_panics_on_nil alertRequest :
  EvaluateAlert alertRequest = None
  ↔ ¬ ∃ req event alert network,
        alertRequest = Some req ∧ Request_Event req = Some event ∧
        Event_Alert event = Some alert ∧ Event_Network event = Some network.
Proof.
  unfold EvaluateAlert. destruct alertRequest as [req|]; simpl.
  2: { split; [|done]. intros _ (? & ? & ? & ? & ? & _). done. }
  destruct (Request_Event req) as [event|] eqn:Hev; simpl.
  2: { split; [|done]. intros _ (? & ? & ? & ? & [= <-] & ? & _). congruence. }
  destruct (Event_Alert event) as [alert|] eqn:Hal; simpl.
  2: { split; [|done].
       intros _ (? & ? & ? & ? & [= <-] & ? & ? & _). congruence. }
  destruct (Event_Network event) as [network|] eqn:Hnet; simpl.
  2: { split; [|done].
       intros _ (? & ? & ? & ? & [= <-] & ? & ? & ?). congruence. }
  split; [done|]. intros Hno. exfalso. apply Hno.
  by exists req, event, alert, network.
Qed.

(** ** debian-version.sh *)

Lemma has_app c s1 s2 : has c (s1 +:+ s2) = has c s1 || has c s2.
Proof.
  induction s1 as [|c' s1 IH]; simpl; [done|].
  by rewrite IH, orb_assoc.
Qed.

Lemma cut_field field rest :
  has "."%char field = false →
  cut (field +:+ String "."%char rest) = (field, Some rest).
Proof.
  induction field as [|c field IH]; simpl; [done|].
  intros Hno. apply orb_false_iff in Hno as [Hc Hfield].
  by rewrite Hc, IH.
Qed.

Lemma cut_last field :
  has "."%char field = false → cut field = (field, None).
Proof.
  induction field as [|c field IH]; simpl; [done|].
  intros Hno. apply orb_false_iff in Hno as [Hc Hfield].
  by rewrite Hc, IH.
Qed.

(** The arguments the model covers: no backslash and no line break. *)
Lemma plain_app s1 s2 :
  has "\"%char (s1 +:+ s2) || has "010"%char (s1 +:+ s2)
  = (has "\"%char s1 || has "010"%char s1)
    || (has "\"%char s2 || has "010"%char s2).
Proof. rewrite !has_app. by destruct (has _ s1), (has _ s1), (has _ s2). Qed.

(** X20.  For a version of three parts, the first two without a dot (and the
    whole without backslash or line break, the last part not ending in a
    dot), the script prints the first two parts joined by a dot, a dash and
    the third part, which keeps its own dots and dashes. *)
Theorem debian_version_three_parts major minor patch :
  has "."%char major = false → has "."%char minor = false →
  has "\"%char major || has "010"%char major = false →
  has "\"%char minor || has "010"%char minor = false →
  has "\"%char patch || has "010"%char patch = false →
  ends_with "."%char patch = false →
  debian_version (major +:+ "." +:+ minor +:+ "." +:+ patch)
  = Some (major +:+ "." +:+ minor +:+ "-" +:+ patch +:+ String "010"%char "").
Proof.
  intros Hmaj Hmin Pmaj Pmin Ppat Hend. unfold debian_version.
  rewrite plain_app, Pmaj. change ("." +:+ minor +:+ "." +:+ patch)
    with (String "."%char (minor +:+ String "."%char patch)).
  assert (Hrest : has "\"%char (String "."%char (minor +:+ String "."%char patch))
                  || has "010"%char (String "."%char (minor +:+ String "."%char patch))
                  = false).
  { change (String "."%char (minor +:+ String "."%char patch))
      with ("." +:+ (minor +:+ ("." +:+ patch))).
    by rewrite !plain_app, Pmin, Ppat. }
  rewrite Hrest. simpl. unfold read_semver.
  rewrite (cut_field major) by done. rewrite (cut_field minor) by done.
  by rewrite Hend.
Qed.

(** X21.  A version with fewer than three parts is no error: the missing
    parts are empty, so a single part X gives "X.-" and two parts X.Y give
    "X.Y-". *)
Theorem debian_version_missing_parts major minor :
  has "."%char major = false → has "."%char minor = false →
  has "\"%char major || has "010"%char major = false →
  has "\"%char minor || has "010"%char minor = false →
  debian_version major = Some (major +:+ ".-" +:+ String "010"%char "") ∧
  debian_version (major +:+ "." +:+ minor)
  = Some (major +:+ "." +:+ minor +:+ "-" +:+ String "010"%char "").
Proof.
  intros Hmaj Hmin Pmaj Pmin. unfold debian_version, read_semver. split.
  - by rewrite Pmaj, (cut_last major).
  - rewrite plain_app, Pmaj.
    change ("." +:+ minor) with (String "."%char minor).
    assert (Hrest : has "\"%char (String "."%char minor)
                    || has "010"%char (String "."%char minor) = false)
      by (simpl; exact Pmin).
    rewrite Hrest. simpl.
    by rewrite (cut_field major), (cut_last minor).
Qed.

(* ===================================================================== *)
(** * Part X.  The further properties at concrete inputs                  *)
(* ===================================================================== *)


Lemma fakeClient_faithful attachFails attachExists stopFails :
  @NameFaithful _ (fakeClient attachFails attachExists stopFails).
Proof. intros cfg w c. simpl. by intros [= <-]. Defined.


(** Starting A when the attachment of the scanner fails: three calls went
    through, the fourth failed, no record. *)
Lemma startAgent_table_effect_witness :
  (startOn ["id-scanner"] [] agentA (serviceWith [containerB])).2
    = Err (ErrRuntime "attach failed") ∧
  containers (startOn ["id-scanner"] [] agentA (serviceWith [containerB])).1
    = [containerB].
Proof.
  split; [reflexivity|].
  destruct (@startAgent_table_effect _ _ (fakeClient ["id-scanner"] [] [])
              fakeConfig agentA (serviceWith [containerB])
              (startOn ["id-scanner"] [] agentA (serviceWith [containerB])).1
              (Err (ErrRuntime "attach failed")) eq_refl)
    as (_ & _ & _ & Htable).
  exact Htable.
Defined.


(** Run [A], stop [A; B], run [A; A]: still one record per name. *)
Lemma one_record_per_name_witness :
  NoDup (tableNames
           (@deliverAll _ _ (fakeClient [] [] ["id-forta-agent-B"]) fakeConfig
              [(SubjectAgentsActionRun, [agentA]);
               (SubjectAgentsActionStop, [agentA; agentB]);
               (SubjectAgentsActionRun, [agentA; agentA])]
              (serviceWith [containerB]))).
Proof.
  apply (@one_record_per_name _ _ (fakeClient [] [] ["id-forta-agent-B"])
           fakeConfig).
  - apply fakeClient_faithful.
  - apply (bool_decide_unpack _). vm_compute. exact I.
Defined.


Lemma stop_unrecords_the_request_witness :
  getContainerUnsafe "forta-agent-A"
    (stopOn [] [agentA] (serviceWith [containerA; containerB])).1 = None.
Proof.
  apply (@stop_unrecords_the_request _ _ (fakeClient [] [] []) fakeConfig
           [agentA] (serviceWith [containerA; containerB]) _ agentA).
  - apply (bool_decide_unpack _). vm_compute. exact I.
  - reflexivity.
  - left.
Defined.

Lemma stop_removes_by_id_witness :
  containers (stopOn [] [agentA] (serviceWith [containerA; containerB])).1
    = [containerB].
Proof.
  exact (@stop_removes_by_id _ _ (fakeClient [] [] []) fakeConfig [agentA]
           (serviceWith [containerA; containerB])
           (stopOn [] [agentA] (serviceWith [containerA; containerB])).1
           eq_refl).
Defined.


Lemma stop_of_unrecorded_agents_witness :
  ∃ t', stopOn [] [agentA] (serviceWith [containerB]) = (t', Ok ()) ∧
    world t' = ["id-forta-agent-B"] ∧
    containers t' = [containerB] ∧
    new_events (serviceWith [containerB]) t'
      = [Log (LogStopSkipped "forta-agent-A");
         Publish SubjectAgentsStatusStopped [agentA]].
Proof.
  apply (@stop_of_unrecorded_agents _ _ (fakeClient [] [] []) fakeConfig
           [agentA] (serviceWith [containerB])).
  intros a Ha. apply list_elem_of_singleton in Ha as ->. reflexivity.
Defined.

(** ** Inspection Scheduler *)


Lemma at_most_one_pending_witness :
  ∃ pc ins, performAll id busySchedule (AtSelect, inspector10) = Some (pc, ins) ∧
    chan_cap (inspectCh ins) = 1%nat ∧
    (length (chan_buf (inspectCh ins)) ≤ 1)%nat.
Proof.
  eexists _, _. split; [vm_compute; reflexivity|].
  eapply (at_most_one_pending id busySchedule 10 false inspectorConfig0).
  vm_compute. reflexivity.
Defined.

Lemma health_never_changes_witness :
  ∃ pc ins, performAll id busySchedule (AtSelect, inspector10) = Some (pc, ins) ∧
    Health ins = [mkReport "last-error" None].
Proof.
  eexists _, _. split; [vm_compute; reflexivity|].
  eapply (health_never_changes id busySchedule AtSelect inspector10).
  vm_compute. reflexivity.
Defined.

Lemma positive_cadence_never_panics_witness :
  is_Some (performAll id busySchedule (AtSelect, inspector10)).
Proof.
  apply (positive_cadence_never_panics id busySchedule AtSelect inspector10).
  - simpl. lia.
  - unfold int_range. simpl. lia.
Defined.

Lemma block_message_silences_watchdog_witness :
  watchdogStep (Minute * 10) (DialFailed (ErrRuntime "dial")) AtSelect
    (set_latestBlockEventTime 5 inspector10)
  = Some (AtSelect, set_latestBlockEventTime 5 inspector10).
Proof.
  apply (block_message_silences_watchdog 5 (mkScannerPayload 95) inspector10).
  - reflexivity.
  - unfold blockEventWaitTimeout, Minute, Second. lia.
Defined.

Lemma worker_attempts_witness :
  ∃ n : nat, (n ≤ 5)%nat ∧
    inspectionsDone
      (bus_since (inspectorPending 90)
         (inspectionWorker id inspectThirdSucceeds 5 (inspectorPending 90)))
    = (λ k, (inspectThirdSucceeds k
               (inspectionConfig 90 (inspectorPending 90))).1) <$> seq 0 (S n) ∧
    inspectCh (inspectionWorker id inspectThirdSucceeds 5 (inspectorPending 90))
    = mkChan 1 [].
Proof.
  destruct (worker_attempts id inspectThirdSucceeds 5 (inspectorPending 90) 90
              (mkChan 1 []) eq_refl) as (n & Hn & _ & Hdone & Hch & _).
  exists n. split; [exact Hn|]. split; [exact Hdone | exact Hch].
Defined.

Lemma negative_cadence_never_triggers_witness :
  handleScannerBlock 5 (mkScannerPayload 100) inspectorNegative
  = Some (set_latestBlockEventTime 5 inspectorNegative).
Proof.
  apply (negative_cadence_never_triggers 5 100 inspectorNegative).
  - simpl. lia.
  - unfold int_range. simpl. lia.
  - unfold uint64_range. lia.
  - simpl. lia.
Defined.

Lemma block_message_reaches_inspection_witness :
  ∃ ins1, handleScannerBlock 5 (mkScannerPayload 100) inspector10 = Some ins1 ∧
    head (inspectionsDone
            (bus_since ins1 (inspectionWorker id inspectThirdSucceeds 5 ins1)))
      = Some "partial" ∧
    inspectCh (inspectionWorker id inspectThirdSucceeds 5 ins1) = mkChan 1 [].
Proof.
  destruct (block_message_reaches_inspection id 5 100 inspector10
              inspectThirdSucceeds 5) as (ins1 & Hrun & _ & Hhead & Hch).
  - simpl. lia.
  - unfold int_range. simpl. lia.
  - unfold uint64_range. lia.
  - lia.
  - reflexivity.
  - reflexivity.
  - simpl. lia.
  - exists ins1. split; [exact Hrun|]. split; [exact Hhead | exact Hch].
Defined.

(** ** The agent server mock and the version script *)

Lemma EvaluateAlert_finding_witness :
  ∃ resp, EvaluateAlert (Some mainnetTraceRequest) = Some resp ∧
    Response_Status resp = ResponseStatus_SUCCESS ∧
    Response_Findings resp = [traceFinding].
Proof.
  destruct (EvaluateAlert_finding mainnetTraceRequest
              (mkAlertEvent
                 (Some (mkAlert {["containerTraceSupported" := "1"]}))
                 (Some (mkNetwork "1")))
              (mkAlert {["containerTraceSupported" := "1"]}) (mkNetwork "1")
              eq_refl eq_refl eq_refl) as (resp & Hrun & Hstatus & _ & Hiff).
  exists resp. split; [exact Hrun|]. split; [exact Hstatus|].
  apply Hiff. split; reflexivity.
Defined.

Lemma debian_version_three_parts_witness :
  debian_version "0.7.12-rc1" = Some (String.append "0.7-12-rc1" (String "010"%char "")).
Proof.
  apply (debian_version_three_parts "0" "7" "12-rc1"); reflexivity.
Defined.

Lemma debian_version_missing_parts_witness :
  debian_version "1" = Some (String.append "1.-" (String "010"%char "")) ∧
  debian_version "1.2" = Some (String.append "1.2-" (String "010"%char "")).
Proof. apply (debian_version_missing_parts "1" "2"); reflexivity. Defined.

Lemma stop_error_names_the_container_witness :
  ∃ id cause ids w,
    (stopOn ["id-forta-agent-B"] [agentA; agentB]
       (serviceWith [containerA; containerB])).2
      = Err (ErrStopFailed id cause) ∧
    (@StopContainer _ (fakeClient [] [] ["id-forta-agent-B"]) id w).2
      = Some cause ∧
    stopCalls (trace (stopOn ["id-forta-agent-B"] [agentA; agentB]
                        (serviceWith [containerA; containerB])).1)
      = (ids ++ [id])%list.
Proof.
  destruct (@stop_error_names_the_container _ _
              (fakeClient [] [] ["id-forta-agent-B"]) fakeConfig
              [agentA; agentB] (serviceWith [containerA; containerB])
              (stopOn ["id-forta-agent-B"] [agentA; agentB]
                 (serviceWith [containerA; containerB])).1
              (ErrStopFailed "id-forta-agent-B" (ErrRuntime "stop failed"))
              eq_refl) as (id & cause & ids & w & He & Hfail & Hcalls & _).
  exists id, cause, ids, w. split; [rewrite <- He; reflexivity|].
  split; [exact Hfail | exact Hcalls].
Defined.

Lemma producers_keep_pending_witness :
  ∃ pc ins,
    perform id (BlockMessage 5 (mkScannerPayload 100))
      (AtSelect, inspectorPending 7) = Some (pc, ins) ∧
    inspectCh ins = mkChan 1 [7].
Proof.
  eexists _, _. split; [vm_compute; reflexivity|].
  eapply (producers_keep_pending id (BlockMessage 5 (mkScannerPayload 100))
            AtSelect (inspectorPending 7)).
  - reflexivity.
  - intros Inspect granted. discriminate.
  - vm_compute. reflexivity.
Defined.
